(** * GeoCoding: the ingestion pipeline and the resolution service

    A shallow embedding of the Go sources of the geocoding API:

    - the importer's [main.go] (the CSV importer with its [--file] and
      [--directory] modes, the processed-files ledger and the post-run
      verification);
    - [internal/service] ([Geocode], [ReverseGeocode]);
    - [internal/handler] (the two HTTP handlers);
    - [internal/repository/postgres.go] (the two SQL queries).

    Go's [float64] is IEEE binary64, taken here from the standard library's
    [SpecFloat]; Go's [int] is a 64-bit two's complement integer, kept as a
    [Z] with the wrap-around written out; Go strings are byte strings. *)

From Stdlib Require Import ZArith List String Ascii Bool Lia.
From Stdlib Require Import Floats.SpecFloat.
From Stdlib Require Import QArith.QArith_base.
From Stdlib Require Import Sorting.Permutation.
Import ListNotations.

Local Open Scope string_scope.
Local Open Scope Z_scope.
Local Open Scope list_scope.

(** ** Machine numbers *)

(** Go's [int] on the 64-bit targets the importer is built for. *)
Module GoInt.

Definition min_int : Z := - 2 ^ 63.
Definition max_int : Z := 2 ^ 63 - 1.

(** Two's complement wrap-around of a mathematical integer. *)
Definition wrap (z : Z) : Z := (z + 2 ^ 63) mod 2 ^ 64 - 2 ^ 63.

Definition add (a b : Z) : Z := wrap (a + b).

(** [x++] *)
Definition incr (a : Z) : Z := add a 1.

(** [len(s)]: a slice length always fits an [int]. *)
Definition len {A : Type} (l : list A) : Z := Z.of_nat (List.length l).

End GoInt.

(** Go's [float64]. *)
Module Float64.

Definition prec : Z := 53.
Definition emax : Z := 1024.

Definition float64 : Type := spec_float.

Definition NaN : float64 := S754_nan.
Definition Inf (neg : bool) : float64 := S754_infinity neg.

(** [a < b], [a > b], [a <= b] on floats: false as soon as one side is NaN. *)
Definition ltb (a b : float64) : bool := SFltb a b.
Definition gtb (a b : float64) : bool := SFltb b a.
Definition leb (a b : float64) : bool := SFleb a b.

(** An integer constant used at type [float64] ([90], [-180], ...). *)
Definition of_Z (z : Z) : float64 := binary_normalize prec emax z 0 false.

(** The binary64 nearest to [(-1)^neg * m / d] (ties to even), for
    integers [m >= 0] and [d > 0]; a zero keeps the sign. *)
Definition of_ratio (neg : bool) (m d : Z) : float64 :=
  match m, d with
  | Zpos pm, Zpos pd =>
      SFdiv prec emax (S754_finite neg pm 0) (S754_finite false pd 0)
  | _, _ => S754_zero neg
  end.

(** The binary64 nearest to the decimal [(-1)^neg * m * 10^e]: what a
    decimal floating-point literal of the Go source denotes, and what
    [strconv.ParseFloat] returns for a decimal string. *)
Definition of_decimal (neg : bool) (m e : Z) : float64 :=
  if 0 <=? e then of_ratio neg (m * 10 ^ e) 1
  else of_ratio neg m (10 ^ (- e)).

Definition is_finite (x : float64) : bool :=
  match x with
  | S754_zero _ | S754_finite _ _ _ => true
  | S754_infinity _ | S754_nan => false
  end.

End Float64.

Definition float64 : Type := Float64.float64.

(** ** [strconv.ParseFloat]

    The library function, for [bitSize = 64], by its documented behaviour:
    the strings [inf], [infinity] (with an optional sign) and [nan], in any
    letter case, denote the special values; a decimal number
    [[+-]digits[.digits][(e|E)[+-]digits]] with at least one mantissa digit
    denotes the nearest binary64 (ties to even), with an error when that is
    out of range; any other string is a syntax error.  [None] stands for a
    non-nil [err].  Hexadecimal mantissas and digit-separating underscores,
    which the library also reads, are outside this model (it reports an
    error for them); no result below relies on a particular string being
    refused other than through [ParseFloat _ = None] itself. *)
Module strconv.

Definition is_digit (c : ascii) : bool :=
  let n := nat_of_ascii c in ((48 <=? n) && (n <=? 57))%nat.

Definition digit_val (c : ascii) : Z := Z.of_nat (nat_of_ascii c) - 48.

Definition lower (c : ascii) : ascii :=
  let n := nat_of_ascii c in
  if ((65 <=? n) && (n <=? 90))%nat then ascii_of_nat (n + 32) else c.

Fixpoint lower_string (s : string) : string :=
  match s with
  | EmptyString => EmptyString
  | String c r => String (lower c) (lower_string r)
  end.

(** [special]: the infinities and NaN. *)
Definition special (s : string) : option float64 :=
  let l := lower_string s in
  if ((l =? "inf") || (l =? "+inf") || (l =? "infinity")
      || (l =? "+infinity"))%string
  then Some (Float64.Inf false)
  else if ((l =? "-inf") || (l =? "-infinity"))%string
  then Some (Float64.Inf true)
  else if (l =? "nan")%string then Some Float64.NaN
  else None.

(** A run of decimal digits: its value continued from [acc], how many
    digits were read, and the rest of the input. *)
Fixpoint digits (s : string) (acc : Z) (n : Z) : Z * Z * string :=
  match s with
  | String c r =>
      if is_digit c then digits r (acc * 10 + digit_val c) (n + 1)
      else (acc, n, s)
  | EmptyString => (acc, n, s)
  end.

Definition sign (s : string) : bool * string :=
  match s with
  | String "+" r => (false, r)
  | String "-" r => (true, r)
  | _ => (false, s)
  end.

(** The optional exponent part; [None] when it is malformed or followed
    by anything. *)
Definition exponent (s : string) : option Z :=
  match s with
  | EmptyString => Some 0
  | String c r =>
      if (lower c =? "e")%char then
        let '(eneg, r1) := sign r in
        let '(e, n, r2) := digits r1 0 0 in
        if (0 <? n) && (r2 =? "")%string then Some (if eneg then - e else e)
        else None
      else None
  end.

(** [readFloat] for base 10: sign, mantissa digits as one integer, and
    the decimal exponent that goes with it. *)
Definition readFloat (s : string) : option (bool * Z * Z) :=
  let '(neg, s1) := sign s in
  let '(ip, n1, s2) := digits s1 0 0 in
  let '(m, n2, s3) :=
    match s2 with
    | String "." r => digits r ip 0
    | _ => (ip, 0, s2)
    end in
  if 0 <? n1 + n2 then
    match exponent s3 with
    | Some e => Some (neg, m, e - n2)
    | None => None
    end
  else None.

Definition ParseFloat (s : string) : option float64 :=
  match special s with
  | Some f => Some f
  | None =>
      match readFloat s with
      | Some (neg, m, e) =>
          let f := Float64.of_decimal neg m e in
          if Float64.is_finite f then Some f else None
      | None => None
      end
  end.

End strconv.

(** ** Errors

    A Go [error] is kept by the format that built it.  Errors that come out
    of a library or of the operating system are known by their message
    only ([errorString]); [%w] keeps the wrapped cause. *)
Inductive error : Type :=
  | errorString (msg : string)
  (* importer, parseCSV *)
  | failed_to_open_file (cause : error)
  | failed_to_read_header (cause : error)
  | failed_to_read_record (cause : error)
  | invalid_record_length (n : Z)
  | invalid_latitude (field : string)
  | invalid_longitude (field : string)
  (* importer, verifyImport *)
  | failed_to_count_records (cause : error)
  | record_count_mismatch (expected got : Z)
  | failed_to_check_geom (cause : error)
  (* service *)
  | service_address_cannot_be_empty
  | service_failed_to_search_locations (cause : error)
  | service_invalid_latitude (lat : float64)
  | service_invalid_longitude (lon : float64)
  | service_failed_to_find_nearest_location (cause : error)
  (* repository *)
  | repository_failed_to_execute_search_query (cause : error)
  | repository_failed_to_scan_location (cause : error)
  | repository_error_iterating_rows (cause : error)
  | repository_no_location_found_near_coordinates
  | repository_failed_to_execute_spatial_query (cause : error).

(** A Go result pair [(value, err)] where only one side is meaningful. *)
Inductive result (A : Type) : Type :=
  | Ok (a : A)
  | Err (e : error).
Arguments Ok {A} a.
Arguments Err {A} e.

(** ** The importer: data *)

Record LocationRecord : Type := mkLocationRecord {
  Prefecture : string;
  Municipality : string;
  Address1 : string;
  Address2 : string;
  BlockLot : string;
  Lat : float64;
  Lon : float64
}.

(** *** Files

    What one [reader.Read()] of [encoding/csv] hands back: a record, or an
    error known by its message.  A file is the sequence of these that its
    reader yields; once the sequence is used up, [Read] returns [io.EOF],
    whose message is ["EOF"].  [FieldsPerRecord = -1] lets records have any
    number of fields. *)
Inductive ReadResult : Type :=
  | ReadRecord (record : list string)
  | ReadError (msg : string).

(** One callback of [filepath.Walk]: the path visited, with either the
    error of the visit or whether the entry is a directory. *)
Record WalkVisit : Type := mkWalkVisit {
  visit_path : string;
  visit_info : string + bool
}.

(** What the importer reads and never writes: the command's surroundings. *)
Record Env : Type := mkEnv {
  (** [os.Open]: an error message, or the records of the file *)
  Open : string -> string + list ReadResult;
  (** the visits [filepath.Walk] makes from a root, in its order, as long
      as the callback returns nil *)
  Walk : string -> list WalkVisit;
  (** [config.LoadConfig]: an error message or the database source *)
  LoadConfig : string + string;
  (** [pgx.Connect] on a database source: the error message, if any *)
  Connect : string -> option string
}.

(** *** The store and the run *)

(** The two [CREATE TABLE IF NOT EXISTS] statements of the setup. *)
Inductive Statement : Type :=
  | CreateLocations
  | CreateProcessedFiles.

(** What the importer prints, by the format of the message. *)
Inductive Msg : Type :=
  | msg_flag_required
  | msg_both_flags
  | msg_error_loading_config (e : error)
  | msg_error_connecting (e : error)
  | msg_error_creating_tables (e : error)
  | msg_starting_file (file : string)
  | msg_error_parsing_csv (e : error)
  | msg_parsed (n : Z)
  | msg_error_inserting (e : error)
  | msg_error_verifying (e : error)
  | msg_successfully_imported (n : Z)
  | msg_starting_directory (directory : string)
  | msg_error_finding_csv_files (e : error)
  | msg_found_csv_files (n : Z)
  | msg_processing_file (filePath : string)
  | msg_error_checking_processed (e : error)
  | msg_skipping (filePath : string)
  | msg_error_parsing_csv_file (filePath : string) (e : error)
  | msg_parsed_from (n : Z) (filePath : string)
  | msg_error_inserting_from (filePath : string) (e : error)
  | msg_error_marking_processed (e : error)
  | msg_successfully_processed (filePath : string) (n : Z)
  | msg_directory_import_completed (processedFiles failedFiles totalRecords : Z)
  | msg_sample_geom (lon lat : float64)
  | msg_verified (count expected : Z).

(** What a run does that can be seen from outside: files opened, the walk,
    round trips to the store, lines printed. *)
Inductive Event : Type :=
  | EvOpen (filePath : string)
  | EvWalk (directory : string)
  | EvExec (st : Statement)
  | EvCopyFrom (records : list LocationRecord)
  | EvIsFileProcessed (filePath : string)
  | EvMarkFileProcessed (filePath : string) (recordCount : Z)
  | EvCountRows
  | EvSampleGeom
  | EvPrint (m : Msg).

(** The two tables, what the store will answer to the round trips still to
    come ([faults]: the next round trip fails with the head's message when
    the head is [Some]; none left means no failure), and the log of what
    the run did. *)
Record World : Type := mkWorld {
  (** table [locations]; the [geom] column of a row is the point
      [(Lon, Lat)] of the record *)
  locations : list LocationRecord;
  (** table [processed_files]: [file_path] (unique) and [record_count] *)
  processed_files : list (string * Z);
  faults : list (option string);
  trace : list Event
}.

Definition log (ev : Event) (w : World) : World :=
  mkWorld (locations w) (processed_files w) (faults w) (trace w ++ [ev]).

Definition print (m : Msg) (w : World) : World := log (EvPrint m) w.

(** One round trip to the store: logged, and failing when the store says
    so. *)
Definition roundtrip (ev : Event) (w : World) : option string * World :=
  (hd None (faults w),
   mkWorld (locations w) (processed_files w) (tl (faults w)) (trace w ++ [ev])).

Definition set_locations (l : list LocationRecord) (w : World) : World :=
  mkWorld l (processed_files w) (faults w) (trace w).

Definition set_processed_files (l : list (string * Z)) (w : World) : World :=
  mkWorld (locations w) l (faults w) (trace w).

(** The three counters of [main]. *)
Record Counters : Type := mkCounters {
  totalRecords : Z;
  processedFiles : Z;
  failedFiles : Z
}.

(** ** The importer: functions *)

(** The loop of [parseCSV] over the records left in the reader; [records]
    is the slice built so far. *)
Fixpoint readRecords (reader : list ReadResult) (records : list LocationRecord)
  : result (list LocationRecord) :=
  match reader with
  | [] => Ok records
  | ReadError msg :: rest =>
      if (msg =? "EOF")%string then Ok records
      else Err (failed_to_read_record (errorString msg))
  | ReadRecord record :: rest =>
      if GoInt.len record <? 11 then Err (invalid_record_length (GoInt.len record))
      else
        match strconv.ParseFloat (nth 9 record "") with
        | None => Err (invalid_latitude (nth 9 record ""))
        | Some lat =>
            match strconv.ParseFloat (nth 10 record "") with
            | None => Err (invalid_longitude (nth 10 record ""))
            | Some lon =>
                readRecords rest
                  (records ++
                   [mkLocationRecord (nth 0 record "") (nth 1 record "")
                      (nth 2 record "") (nth 3 record "") (nth 4 record "")
                      lat lon])
            end
        end
  end.

(** What [parseCSV] returns for the contents [os.Open] gave. *)
Definition parseOpened (opened : string + list ReadResult)
  : result (list LocationRecord) :=
  match opened with
  | inl msg => Err (failed_to_open_file (errorString msg))
  | inr reader =>
      (* Skip header *)
      match reader with
      | [] => Err (failed_to_read_header (errorString "EOF"))
      | ReadError msg :: _ => Err (failed_to_read_header (errorString msg))
      | ReadRecord _ :: rest => readRecords rest []
      end
  end.

Definition parseCSV (env : Env) (filePath : string) (w : World)
  : result (list LocationRecord) * World :=
  (parseOpened (Open env filePath), log (EvOpen filePath) w).

Definition createTablesIfNotExists (w : World) : option error * World :=
  let '(f, w1) := roundtrip (EvExec CreateLocations) w in
  match f with
  | Some msg => (Some (errorString msg), w1)
  | None =>
      let '(f2, w2) := roundtrip (EvExec CreateProcessedFiles) w1 in
      (option_map errorString f2, w2)
  end.

(** [CopyFrom] is one statement: all the rows, or an error and none. *)
Definition insertRecords (records : list LocationRecord) (w : World)
  : option error * World :=
  let '(f, w1) := roundtrip (EvCopyFrom records) w in
  match f with
  | Some msg => (Some (errorString msg), w1)
  | None => (None, set_locations (locations w1 ++ records) w1)
  end.

Definition verifyImport (expectedCount : Z) (w : World) : option error * World :=
  let '(f, w1) := roundtrip EvCountRows w in
  match f with
  | Some msg => (Some (failed_to_count_records (errorString msg)), w1)
  | None =>
      let count := GoInt.len (locations w1) in
      if count <? expectedCount
      then (Some (record_count_mismatch expectedCount count), w1)
      else
        (* Check a sample geom *)
        let '(f2, w2) := roundtrip EvSampleGeom w1 in
        match f2, locations w2 with
        | Some msg, _ => (Some (failed_to_check_geom (errorString msg)), w2)
        | None, [] =>
            (Some (failed_to_check_geom (errorString "no rows in result set")), w2)
        | None, r :: _ =>
            (None,
             print (msg_verified count expectedCount)
               (print (msg_sample_geom (Lon r) (Lat r)) w2))
        end
  end.

(** [filepath.Ext]: the suffix from the last dot of the last element of the
    path, empty when there is none. *)
Module filepath.

Fixpoint has_separator (s : string) : bool :=
  match s with
  | EmptyString => false
  | String c r => (c =? "/")%char || has_separator r
  end.

Fixpoint Ext (path : string) : string :=
  match path with
  | EmptyString => EmptyString
  | String c r =>
      match Ext r with
      | EmptyString =>
          if has_separator r then EmptyString
          else if (c =? ".")%char then path else EmptyString
      | e => e
      end
  end.

End filepath.

(** The callback of [findCSVFiles] run over the visits of the walk: the
    files gathered and the error that stopped the walk, if any. *)
Fixpoint walkFunc (visits : list WalkVisit) (files : list string)
  : list string * option error :=
  match visits with
  | [] => (files, None)
  | v :: rest =>
      match visit_info v with
      | inl msg => (files, Some (errorString msg))
      | inr isDir =>
          if negb isDir && (filepath.Ext (visit_path v) =? ".csv")%string
          then walkFunc rest (files ++ [visit_path v])
          else walkFunc rest files
      end
  end.

Definition findCSVFiles (env : Env) (directory : string) (w : World)
  : (list string * option error) * World :=
  (walkFunc (Walk env directory) [], log (EvWalk directory) w).

(** [SELECT EXISTS(SELECT 1 FROM processed_files WHERE file_path = $1)] *)
Definition ledger_has (filePath : string) (ledger : list (string * Z)) : bool :=
  existsb (fun row => (fst row =? filePath)%string) ledger.

Definition isFileProcessed (filePath : string) (w : World)
  : (bool * option error) * World :=
  let '(f, w1) := roundtrip (EvIsFileProcessed filePath) w in
  match f with
  | Some msg => ((false, Some (errorString msg)), w1)
  | None => ((ledger_has filePath (processed_files w1), None), w1)
  end.

(** [INSERT INTO processed_files ... ON CONFLICT (file_path) DO NOTHING] *)
Definition markFileProcessed (filePath : string) (recordCount : Z) (w : World)
  : option error * World :=
  let '(f, w1) := roundtrip (EvMarkFileProcessed filePath recordCount) w in
  match f with
  | Some msg => (Some (errorString msg), w1)
  | None =>
      if ledger_has filePath (processed_files w1) then (None, w1)
      else
        (None,
         set_processed_files (processed_files w1 ++ [(filePath, recordCount)]) w1)
  end.

Definition fail_file (c : Counters) : Counters :=
  mkCounters (totalRecords c) (processedFiles c) (GoInt.incr (failedFiles c)).

(** One turn of the loop of the directory import. *)
Definition processFile (env : Env) (filePath : string) (st : Counters * World)
  : Counters * World :=
  let '(c, w) := st in
  let w := print (msg_processing_file filePath) w in
  (* Check if file has been processed *)
  let '((processed, err), w) := isFileProcessed filePath w in
  match err with
  | Some e => (fail_file c, print (msg_error_checking_processed e) w)
  | None =>
      if processed then (c, print (msg_skipping filePath) w)
      else
        let '(parsed, w) := parseCSV env filePath w in
        match parsed with
        | Err e => (fail_file c, print (msg_error_parsing_csv_file filePath e) w)
        | Ok records =>
            let w := print (msg_parsed_from (GoInt.len records) filePath) w in
            (* Insert records *)
            let '(err, w) := insertRecords records w in
            match err with
            | Some e =>
                (fail_file c, print (msg_error_inserting_from filePath e) w)
            | None =>
                (* Mark file as processed *)
                let '(err, w) :=
                  markFileProcessed filePath (GoInt.len records) w in
                let w :=
                  match err with
                  | Some e => print (msg_error_marking_processed e) w
                    (* Don't increment failedFiles here as the data was
                       inserted successfully *)
                  | None => w
                  end in
                (mkCounters
                   (GoInt.add (totalRecords c) (GoInt.len records))
                   (GoInt.incr (processedFiles c))
                   (failedFiles c),
                 print (msg_successfully_processed filePath (GoInt.len records)) w)
            end
        end
  end.

(** [for _, filePath := range files] *)
Fixpoint processFiles (env : Env) (files : list string) (st : Counters * World)
  : Counters * World :=
  match files with
  | [] => st
  | filePath :: rest => processFiles env rest (processFile env filePath st)
  end.

(** The single-file branch of [main] (backward compatibility): the exit
    code and the world it leaves. *)
Definition importFile (env : Env) (file : string) (w : World) : Z * World :=
  let w := print (msg_starting_file file) w in
  let '(parsed, w) := parseCSV env file w in
  match parsed with
  | Err e => (1, print (msg_error_parsing_csv e) w)
  | Ok records =>
      let w := print (msg_parsed (GoInt.len records)) w in
      (* Insert records *)
      let '(err, w) := insertRecords records w in
      match err with
      | Some e => (1, print (msg_error_inserting e) w)
      | None =>
          (* Verify data *)
          let '(err, w) := verifyImport (GoInt.len records) w in
          match err with
          | Some e => (1, print (msg_error_verifying e) w)
          | None => (0, print (msg_successfully_imported (GoInt.len records)) w)
          end
      end
  end.

(** The directory branch of [main]. *)
Definition importDirectory (env : Env) (directory : string) (w : World)
  : Z * World :=
  let w := print (msg_starting_directory directory) w in
  let '((files, err), w) := findCSVFiles env directory w in
  match err with
  | Some e => (1, print (msg_error_finding_csv_files e) w)
  | None =>
      let w := print (msg_found_csv_files (GoInt.len files)) w in
      let '(c, w) := processFiles env files (mkCounters 0 0 0, w) in
      (0,
       print (msg_directory_import_completed
                (processedFiles c) (failedFiles c) (totalRecords c)) w)
  end.

(** [main] of the importer, on the values of the flags [--file] and
    [--directory]: the exit code of the process and the world it leaves. *)
Definition main (env : Env) (file directory : string) (w : World) : Z * World :=
  if (file =? "")%string && (directory =? "")%string
  then (1, print msg_flag_required w)
  else if negb (file =? "")%string && negb (directory =? "")%string
  then (1, print msg_both_flags w)
  else
    (* Load config *)
    match LoadConfig env with
    | inl msg => (1, print (msg_error_loading_config (errorString msg)) w)
    | inr dbSource =>
        (* Connect to DB *)
        match Connect env dbSource with
        | Some msg => (1, print (msg_error_connecting (errorString msg)) w)
        | None =>
            (* Ensure tables exist *)
            let '(err, w) := createTablesIfNotExists w in
            match err with
            | Some e => (1, print (msg_error_creating_tables e) w)
            | None =>
                if negb (file =? "")%string then importFile env file w
                else importDirectory env directory w
            end
        end
    end.

(** ** The API: programs over an interface

    The handlers and the services reach the layer below through a Go
    interface.  A function written against an interface is kept as the
    tree of the calls it makes: [Ret] returns, [Call] invokes a method and
    goes on with its answer.  A tree with no [Call] calls nothing. *)
Inductive Prog (E : Type -> Type) (A : Type) : Type :=
  | Ret (a : A)
  | Call {X : Type} (e : E X) (k : X -> Prog E A).
Arguments Ret {E A} a.
Arguments Call {E A X} e k.

Fixpoint bind {E : Type -> Type} {A B : Type}
  (p : Prog E A) (f : A -> Prog E B) : Prog E B :=
  match p with
  | Ret a => f a
  | Call e k => Call e (fun x => bind (k x) f)
  end.

(** Plugging an implementation written against [F] under an interface [E]. *)
Fixpoint interp {E F : Type -> Type} {A : Type}
  (impl : forall X, E X -> Prog F X) (p : Prog E A) : Prog F A :=
  match p with
  | Ret a => Ret a
  | Call e k => bind (impl _ e) (fun x => interp impl (k x))
  end.

(** Running a program against answers for the methods of its interface. *)
Fixpoint run {E : Type -> Type} {A : Type}
  (answer : forall X, E X -> X) (p : Prog E A) : A :=
  match p with
  | Ret a => a
  | Call e k => run answer (k (answer _ e))
  end.

(** The methods a program calls, in order, against given answers. *)
Fixpoint calls {E : Type -> Type} {A : Type}
  (answer : forall X, E X -> X) (p : Prog E A) : list {X : Type & E X} :=
  match p with
  | Ret _ => []
  | Call e k => existT _ _ e :: calls answer (k (answer _ e))
  end.

Module models.

Record Location : Type := mkLocation {
  ID : Z;
  Prefecture : string;
  Municipality : string;
  Address1 : string;
  Address2 : string;
  BlockLot : string;
  Latitude : float64;
  Longitude : float64
}.

End models.

(** *** [internal/service] *)
Module service.

(** The two repository interfaces.  A Go slice result is a list ([nil] is
    the empty list); a [*models.Location] is an [option]. *)
Variant GeoCodeRepository : Type -> Type :=
  | SearchLocationsByText (query : string)
    : GeoCodeRepository (list models.Location * option error).

Variant ReverseGeoCodeRepository : Type -> Type :=
  | FindNearestLocation (lat lon : float64)
    : ReverseGeoCodeRepository (option models.Location * option error).

Definition Geocode (address : string)
  : Prog GeoCodeRepository (list models.Location * option error) :=
  if (address =? "")%string
  then Ret ([], Some service_address_cannot_be_empty)
  else
    Call (SearchLocationsByText address) (fun '(locations, err) =>
      match err with
      | Some e => Ret ([], Some (service_failed_to_search_locations e))
      | None => Ret (locations, None)
      end).

Definition ReverseGeocode (lat lon : float64)
  : Prog ReverseGeoCodeRepository (option models.Location * option error) :=
  if Float64.ltb lat (Float64.of_Z (-90)) || Float64.gtb lat (Float64.of_Z 90)
  then Ret (None, Some (service_invalid_latitude lat))
  else if Float64.ltb lon (Float64.of_Z (-180))
          || Float64.gtb lon (Float64.of_Z 180)
  then Ret (None, Some (service_invalid_longitude lon))
  else
    Call (FindNearestLocation lat lon) (fun '(location, err) =>
      match err with
      | Some e => Ret (None, Some (service_failed_to_find_nearest_location e))
      | None => Ret (location, None)
      end).

End service.

(** *** [internal/handler] *)
Module handler.

(** The service interfaces of the two handlers; [service_Geocode] is the
    call [h.service.Geocode], [service_ReverseGeocode] the call
    [h.service.ReverseGeocode]. *)
Variant GeoCodeService : Type -> Type :=
  | service_Geocode (address : string)
    : GeoCodeService (list models.Location * option error).

Variant GeoCodingService : Type -> Type :=
  | service_ReverseGeocode (lat lon : float64)
    : GeoCodingService (option models.Location * option error).

(** The query string of the request, as [c.Query] reads it: the first
    value of the key, the empty string when the key is absent. *)
Definition Context : Type := list (string * string).

Fixpoint Query (c : Context) (key : string) : string :=
  match c with
  | [] => ""
  | (k, v) :: rest => if (k =? key)%string then v else Query rest key
  end.

(** What [c.JSON] is given. *)
Inductive Body : Type :=
  | body_error (msg : string)
  | body_locations (locations : list models.Location)
  | body_location (location : models.Location).

Record Response : Type := JSON {
  status : Z;
  body : Body
}.

Definition StatusOK : Z := 200.
Definition StatusBadRequest : Z := 400.
Definition StatusNotFound : Z := 404.
Definition StatusInternalServerError : Z := 500.

(** [GET /geocode] *)
Definition GeoCode (c : Context) : Prog GeoCodeService Response :=
  let query := Query c "q" in
  if (query =? "")%string
  then Ret (JSON StatusBadRequest
              (body_error "missing required query parameter 'q'"))
  else
    Call (service_Geocode query) (fun '(locations, err) =>
      match err with
      | Some _ =>
          Ret (JSON StatusInternalServerError
                 (body_error "internal server error"))
      | None => Ret (JSON StatusOK (body_locations locations))
      end).

(** [GET /reverse-geocode] *)
Definition ReverseGeocode (c : Context) : Prog GeoCodingService Response :=
  let latStr := Query c "lat" in
  let lonStr := Query c "lon" in
  if (latStr =? "")%string || (lonStr =? "")%string
  then Ret (JSON StatusBadRequest
              (body_error "missing required query parameters 'lat' and 'lon'"))
  else
    match strconv.ParseFloat latStr with
    | None => Ret (JSON StatusBadRequest (body_error "invalid latitude format"))
    | Some lat =>
        match strconv.ParseFloat lonStr with
        | None =>
            Ret (JSON StatusBadRequest (body_error "invalid longitude format"))
        | Some lon =>
            Call (service_ReverseGeocode lat lon) (fun '(location, err) =>
              match err, location with
              | Some _, _ =>
                  Ret (JSON StatusInternalServerError
                         (body_error "internal server error"))
              | None, None =>
                  Ret (JSON StatusNotFound
                         (body_error
                            "no address found near the specified coordinates"))
              | None, Some loc => Ret (JSON StatusOK (body_location loc))
              end)
        end
    end.

End handler.

(** *** [internal/repository/postgres.go]

    The repository sends one SQL query per call.  What the operators of
    the storage engine compute (text match and rank, distance) is the
    engine's business and is left open; what the query does with them
    ([WHERE], [ORDER BY], [LIMIT]) is written out. *)
Module repository.

Record Engine : Type := mkEngine {
  (** [full_address_tsvector @@ to_tsquery('japanese', $1)] *)
  tsquery_matches : string -> models.Location -> bool;
  (** [ts_rank(full_address_tsvector, to_tsquery('japanese', $1))] *)
  ts_rank : string -> models.Location -> Q;
  (** [ST_DWithin(geom, ST_SetSRID(ST_MakePoint($2, $1), 4326), 10000)] *)
  ST_DWithin_10km : float64 -> float64 -> models.Location -> bool;
  (** [geom <-> ST_SetSRID(ST_MakePoint($2, $1), 4326)] *)
  distance : float64 -> float64 -> models.Location -> Q
}.

(** [r.db]: the engine, the rows of [locations], and the failures the
    driver reports for this call, by message. *)
Record Repository : Type := mkRepository {
  engine : Engine;
  table : list models.Location;
  query_err : option string;
  scan_err : models.Location -> option string;
  rows_err : option string
}.

Section OrderBy.
Context {A : Type} (le : A -> A -> bool).

Fixpoint insert_by (x : A) (l : list A) : list A :=
  match l with
  | [] => [x]
  | y :: r => if le x y then x :: l else y :: insert_by x r
  end.

Fixpoint order_by (l : list A) : list A :=
  match l with
  | [] => []
  | x :: r => insert_by x (order_by r)
  end.
End OrderBy.

(** [ORDER BY key DESC] and [ORDER BY key]: which row goes first. *)
Definition desc_by {A : Type} (key : A -> Q) (a b : A) : bool :=
  Qle_bool (key b) (key a).

Definition asc_by {A : Type} (key : A -> Q) (a b : A) : bool :=
  Qle_bool (key a) (key b).

(** [SELECT ... WHERE ... @@ to_tsquery(...) ORDER BY ts_rank(...) DESC
    LIMIT 10] *)
Definition search_rows (r : Repository) (query : string)
  : list models.Location :=
  firstn 10
    (order_by (desc_by (ts_rank (engine r) query))
       (filter (tsquery_matches (engine r) query) (table r))).

(** [SELECT ... WHERE ST_DWithin(...) ORDER BY geom <-> ... LIMIT 1] *)
Definition nearest_rows (r : Repository) (lat lon : float64)
  : list models.Location :=
  firstn 1
    (order_by (asc_by (distance (engine r) lat lon))
       (filter (ST_DWithin_10km (engine r) lat lon) (table r))).

(** [for rows.Next() { rows.Scan(...); locations = append(...) }] *)
Fixpoint scanRows (r : Repository) (rows locations : list models.Location)
  : list models.Location * option error :=
  match rows with
  | [] => (locations, None)
  | loc :: rest =>
      match scan_err r loc with
      | Some msg =>
          ([], Some (repository_failed_to_scan_location (errorString msg)))
      | None => scanRows r rest (locations ++ [loc])
      end
  end.

Definition SearchLocationsByText (r : Repository) (query : string)
  : list models.Location * option error :=
  match query_err r with
  | Some msg =>
      ([], Some (repository_failed_to_execute_search_query (errorString msg)))
  | None =>
      match scanRows r (search_rows r query) [] with
      | (_, Some e) => ([], Some e)
      | (locations, None) =>
          match rows_err r with
          | Some msg =>
              ([], Some (repository_error_iterating_rows (errorString msg)))
          | None => (locations, None)
          end
      end
  end.

(** [r.db.QueryRow(ctx, sql, lat, lon).Scan(...)]: the error, by message,
    or the row. *)
Definition queryRowScan (r : Repository) (lat lon : float64)
  : string + models.Location :=
  match query_err r with
  | Some msg => inl msg
  | None =>
      match nearest_rows r lat lon with
      | [] => inl "no rows in result set"
      | loc :: _ =>
          match scan_err r loc with
          | Some msg => inl msg
          | None => inr loc
          end
      end
  end.

Definition FindNearestLocation (r : Repository) (lat lon : float64)
  : option models.Location * option error :=
  match queryRowScan r lat lon with
  | inl msg =>
      if (msg =? "no rows in result set")%string
      then (None, Some repository_no_location_found_near_coordinates)
      else (None,
            Some (repository_failed_to_execute_spatial_query (errorString msg)))
  | inr loc => (Some loc, None)
  end.

End repository.

(** *** The server's [main]: the layers put together *)
Module api.

Definition geoCodeService (X : Type) (e : handler.GeoCodeService X)
  : Prog service.GeoCodeRepository X :=
  match e in handler.GeoCodeService T return Prog service.GeoCodeRepository T with
  | handler.service_Geocode address => service.Geocode address
  end.

Definition reverseGeocodeService (X : Type) (e : handler.GeoCodingService X)
  : Prog service.ReverseGeoCodeRepository X :=
  match e in handler.GeoCodingService T
        return Prog service.ReverseGeoCodeRepository T with
  | handler.service_ReverseGeocode lat lon => service.ReverseGeocode lat lon
  end.

Definition geoCodeRepo (repo : repository.Repository)
  (X : Type) (e : service.GeoCodeRepository X) : X :=
  match e in service.GeoCodeRepository T return T with
  | service.SearchLocationsByText query =>
      repository.SearchLocationsByText repo query
  end.

Definition reverseGeoCodeRepo (repo : repository.Repository)
  (X : Type) (e : service.ReverseGeoCodeRepository X) : X :=
  match e in service.ReverseGeoCodeRepository T return T with
  | service.FindNearestLocation lat lon =>
      repository.FindNearestLocation repo lat lon
  end.

(** [r.GET("/geocode", geoCodeHandler.GeoCode)] *)
Definition geocode (repo : repository.Repository) (c : handler.Context)
  : handler.Response :=
  run (geoCodeRepo repo) (interp geoCodeService (handler.GeoCode c)).

(** [r.GET("/reverse-geocode", reverseGeocodeHandler.ReverseGeocode)] *)
Definition reverse_geocode (repo : repository.Repository) (c : handler.Context)
  : handler.Response :=
  run (reverseGeoCodeRepo repo)
    (interp reverseGeocodeService (handler.ReverseGeocode c)).

End api.

(** ** Vocabulary of the statements *)

(** The specification's reading of a data row: at least 11 columns,
    columns 0 to 4 the address, columns 9 and 10 the coordinates. *)
Definition row_parses (row : list string) (r : LocationRecord) : Prop :=
  11 <= GoInt.len row
  /\ Prefecture r = nth 0 row ""
  /\ Municipality r = nth 1 row ""
  /\ Address1 r = nth 2 row ""
  /\ Address2 r = nth 3 row ""
  /\ BlockLot r = nth 4 row ""
  /\ strconv.ParseFloat (nth 9 row "") = Some (Lat r)
  /\ strconv.ParseFloat (nth 10 row "") = Some (Lon r).

(** The specification's ranges: latitude in [-90, 90], longitude in
    [-180, 180]. *)
Definition lat_in_range (lat : float64) : bool :=
  Float64.leb (Float64.of_Z (-90)) lat && Float64.leb lat (Float64.of_Z 90).

Definition lon_in_range (lon : float64) : bool :=
  Float64.leb (Float64.of_Z (-180)) lon && Float64.leb lon (Float64.of_Z 180).

(** The records of a file as [parseCSV] reads them; none for a file it
    refuses. *)
Definition file_records (env : Env) (filePath : string) : list LocationRecord :=
  match parseOpened (Open env filePath) with
  | Ok records => records
  | Err _ => []
  end.

Definition well_formed (env : Env) (filePath : string) : bool :=
  match parseOpened (Open env filePath) with
  | Ok _ => true
  | Err _ => false
  end.

Definition malformed (env : Env) (filePath : string) : bool :=
  negb (well_formed env filePath).

(** The events a run added to the log all satisfy [P]. *)
Definition grows (P : Event -> Prop) (w w' : World) : Prop :=
  exists evs, trace w' = trace w ++ evs /\ Forall P evs.

(** The store answers every round trip still to come. *)
Definition reliable (w : World) : Prop := faults w = [].

(** The surroundings let the importer start: the configuration loads and
    the database accepts the connection. *)
Definition starts (env : Env) : Prop :=
  exists dbSource, LoadConfig env = inr dbSource /\ Connect env dbSource = None.

(** The walk from [directory] meets no error and gathers [files]. *)
Definition discovers (env : Env) (directory : string) (files : list string)
  : Prop :=
  walkFunc (Walk env directory) [] = (files, None).

(** The events a run from [w] to [w'] added to the log. *)
Definition added (w w' : World) : list Event :=
  skipn (List.length (trace w)) (trace w').

(** The counters after a file with [records] went through. *)
Definition count_file (records : list LocationRecord) (c : Counters) : Counters :=
  mkCounters (GoInt.add (totalRecords c) (GoInt.len records))
    (GoInt.incr (processedFiles c)) (failedFiles c).

(** The world in which the directory loop starts after the setup of
    [main]: two statements sent, the walk done. *)
Definition after_setup (directory : string) (files : list string) (w : World)
  : World :=
  mkWorld (locations w) (processed_files w) (tl (tl (faults w)))
    (trace w ++
     [EvExec CreateLocations; EvExec CreateProcessedFiles;
      EvPrint (msg_starting_directory directory); EvWalk directory;
      EvPrint (msg_found_csv_files (GoInt.len files))]).

(** What a single-file run may log, and what a directory run over [files]
    may log. *)
Definition file_event (env : Env) (file : string) (ev : Event) : Prop :=
  match ev with
  | EvPrint _ | EvExec _ | EvCountRows | EvSampleGeom => True
  | EvOpen f => f = file
  | EvCopyFrom records => parseOpened (Open env file) = Ok records
  | EvIsFileProcessed _ | EvMarkFileProcessed _ _ | EvWalk _ => False
  end.

Definition directory_event (env : Env) (files : list string) (ev : Event)
  : Prop :=
  match ev with
  | EvPrint _ | EvExec _ | EvWalk _ => True
  | EvOpen f | EvIsFileProcessed f => In f files
  | EvCopyFrom records =>
      exists f, In f files /\ parseOpened (Open env f) = Ok records
  | EvMarkFileProcessed f n =>
      In f files
      /\ exists records,
           parseOpened (Open env f) = Ok records /\ n = GoInt.len records
  | EvCountRows | EvSampleGeom => False
  end.

(** A bulk insert carries the records [parseCSV] made of some file. *)
Definition copy_ok (env : Env) (ev : Event) : Prop :=
  match ev with
  | EvCopyFrom records =>
      exists filePath, parseOpened (Open env filePath) = Ok records
  | _ => True
  end.

Definition is_ledger_query (ev : Event) : bool :=
  match ev with
  | EvIsFileProcessed _ => true
  | _ => false
  end.

Definition is_ledger_write (ev : Event) : bool :=
  match ev with
  | EvMarkFileProcessed _ _ => true
  | _ => false
  end.

(** Descending by rank, as [ORDER BY ts_rank(...) DESC] asks. *)
Fixpoint descending {A : Type} (rank : A -> Q) (l : list A) : Prop :=
  match l with
  | [] => True
  | a :: r =>
      Forall (fun b => Qle (rank b) (rank a)) r /\ descending rank r
  end.

(** ** Sample data *)
Module Sample.

Definition header : list string :=
  ["prefecture"; "municipality"; "address1"; "address2"; "block_lot";
   "c5"; "c6"; "c7"; "c8"; "lat"; "lon"].

Definition marunouchi : list string :=
  ["東京都"; "千代田区"; "丸の内"; ""; ""; ""; ""; ""; "";
   "35.681236"; "139.767125"].

Definition akasaka : list string :=
  ["東京都"; "港区"; "赤坂"; "1丁目"; ""; ""; ""; ""; "";
   "35.675"; "139.732"].

(** A row whose coordinates are numbers outside the ranges. *)
Definition far_away : list string :=
  ["x"; "y"; "z"; ""; ""; ""; ""; ""; ""; "95"; "200"].

Definition short_row : list string := ["東京都"; "千代田区"; "丸の内"].

Definition files : list (string * list ReadResult) :=
  [("data/a.csv", [ReadRecord header; ReadRecord marunouchi]);
   ("data/b.csv", [ReadRecord header; ReadRecord short_row]);
   ("data/c.csv", [ReadRecord header; ReadRecord akasaka]);
   ("data/far.csv", [ReadRecord header; ReadRecord far_away]);
   ("data/empty.csv", [ReadRecord header])].

Fixpoint lookup (path : string) (l : list (string * list ReadResult))
  : string + list ReadResult :=
  match l with
  | [] => inl "open: no such file or directory"
  | (p, content) :: rest =>
      if (p =? path)%string then inr content else lookup path rest
  end.

Definition walk (directory : string) : list WalkVisit :=
  if (directory =? "data")%string then
    [mkWalkVisit "data" (inr true);
     mkWalkVisit "data/a.csv" (inr false);
     mkWalkVisit "data/b.csv" (inr false);
     mkWalkVisit "data/c.csv" (inr false);
     mkWalkVisit "data/notes.txt" (inr false)]
  else if (directory =? "far")%string then
    [mkWalkVisit "far" (inr true);
     mkWalkVisit "data/far.csv" (inr false)]
  else [mkWalkVisit directory (inl "lstat: no such file or directory")].

Definition env : Env :=
  mkEnv (fun path => lookup path files) walk
    (inr "postgres://localhost/geocoding") (fun _ => None).

(** An empty store that answers every round trip. *)
Definition empty : World := mkWorld [] [] [] [].

Definition marunouchi_record : LocationRecord :=
  mkLocationRecord "東京都" "千代田区" "丸の内" "" ""
    (Float64.of_decimal false 35681236 (-6))
    (Float64.of_decimal false 139767125 (-6)).

Definition akasaka_record : LocationRecord :=
  mkLocationRecord "東京都" "港区" "赤坂" "1丁目" ""
    (Float64.of_decimal false 35675 (-3))
    (Float64.of_decimal false 139732 (-3)).

Definition far_away_record : LocationRecord :=
  mkLocationRecord "x" "y" "z" "" "" (Float64.of_Z 95) (Float64.of_Z 200).

(** An engine that matches nothing and a repository with no rows. *)
Definition engine : repository.Engine :=
  repository.mkEngine (fun _ _ => false) (fun _ _ => 0%Q)
    (fun _ _ _ => false) (fun _ _ _ => 0%Q).

Definition repo : repository.Repository :=
  repository.mkRepository engine [] None (fun _ => None) None.

(** Twelve rows that every query matches, ranked by their number. *)
Definition numbered (n : Z) : models.Location :=
  models.mkLocation n "東京都" "千代田区" "丸の内" "" ""
    (Float64.of_decimal false 35681236 (-6))
    (Float64.of_decimal false 139767125 (-6)).

Definition crowded : repository.Repository :=
  repository.mkRepository
    (repository.mkEngine (fun _ _ => true) (fun _ loc => inject_Z (models.ID loc))
       (fun _ _ _ => true) (fun _ _ loc => inject_Z (models.ID loc)))
    (map numbered [1; 2; 3; 4; 5; 6; 7; 8; 9; 10; 11; 12])
    None (fun _ => None) None.

End Sample.

(** ** The first version of the importer

    [main.go] also keeps the importer as it was before the directory mode.
    It shares [parseCSV] and [insertRecords] with the later one; its
    [verifyImport] asks for the exact count and prints the sample only. *)
Module v1.

Inductive verify_error : Type :=
  | failed_to_count_records (cause : error)
  | record_count_mismatch (expected got : Z)
  | failed_to_check_geom (cause : error).

Definition verifyImport (expectedCount : Z) (w : World)
  : option verify_error * World :=
  let '(f, w1) := roundtrip EvCountRows w in
  match f with
  | Some msg => (Some (failed_to_count_records (errorString msg)), w1)
  | None =>
      let count := GoInt.len (locations w1) in
      if negb (count =? expectedCount)
      then (Some (record_count_mismatch expectedCount count), w1)
      else
        (* Check a sample geom *)
        let '(f2, w2) := roundtrip EvSampleGeom w1 in
        match f2, locations w2 with
        | Some msg, _ => (Some (failed_to_check_geom (errorString msg)), w2)
        | None, [] =>
            (Some (failed_to_check_geom (errorString "no rows in result set")), w2)
        | None, r :: _ => (None, print (msg_sample_geom (Lon r) (Lat r)) w2)
        end
  end.

End v1.

(** ** Vocabulary of the further statements *)

(** The head of the list has a least key. *)
Definition head_least {A : Type} (key : A -> Q) (l : list A) : Prop :=
  match l with
  | [] => True
  | a :: r => Forall (fun b => Qle (key a) (key b)) r
  end.

(** The keys of the ledger table. *)
Definition ledger_keys (w : World) : list string := map fst (processed_files w).

(** Setup events: statements sent and lines printed, nothing else. *)
Definition is_setup_event (ev : Event) : bool :=
  match ev with
  | EvExec _ | EvPrint _ => true
  | _ => false
  end.

(** Events that read a file or reach the data of the store. *)
Definition touches_data (ev : Event) : bool :=
  match ev with
  | EvOpen _ | EvCopyFrom _ | EvIsFileProcessed _ | EvMarkFileProcessed _ _
  | EvCountRows | EvSampleGeom => true
  | EvWalk _ | EvExec _ | EvPrint _ => false
  end.

(** A visit of the walk that the callback keeps: a file whose name ends in
    [.csv]. *)
Definition is_csv_file (v : WalkVisit) : bool :=
  match visit_info v with
  | inr false => (filepath.Ext (visit_path v) =? ".csv")%string
  | _ => false
  end.

(** A row of the ledger written by a run over [files] whose inserted rows
    are [ins]: its key is one of the files, its count the number of records
    of that file, and those records are among the rows inserted. *)
Definition ledger_row_ok (env : Env) (files : list string)
  (ins : list LocationRecord) (row : string * Z) : Prop :=
  In (fst row) files
  /\ exists records l1 l2,
       parseOpened (Open env (fst row)) = Ok records
       /\ snd row = GoInt.len records
       /\ ins = l1 ++ records ++ l2.

(** * Properties *)

(** ** Numbers *)

Lemma SFcompare_antisym (a b : spec_float) :
  SFcompare b a = option_map CompOpp (SFcompare a b).
Proof.
  destruct a as [sa|sa| |sa ma ea], b as [sb|sb| |sb mb eb]; simpl;
    try reflexivity;
    try (destruct sa; reflexivity);
    try (destruct sb; reflexivity);
    try (destruct sa, sb; reflexivity).
  destruct sa, sb; simpl; try reflexivity;
    rewrite (Z.compare_antisym ea eb); destruct (ea ?= eb); simpl;
    try reflexivity; f_equal.
  - pose proof (Pos.compare_cont_antisym ma mb Eq) as H. simpl in H.
    now rewrite H.
  - pose proof (Pos.compare_cont_antisym ma mb Eq) as H. simpl in H.
    now rewrite H.
Qed.

Lemma leb_not_gtb (a b : float64) :
  Float64.leb a b = true -> Float64.gtb a b = false.
Proof.
  unfold Float64.leb, Float64.gtb, SFleb, SFltb.
  rewrite (SFcompare_antisym a b).
  destruct (SFcompare a b) as [[ | | ]|]; simpl; congruence.
Qed.

Lemma leb_not_ltb (a b : float64) :
  Float64.leb a b = true -> Float64.ltb b a = false.
Proof. exact (leb_not_gtb a b). Qed.

(** ** The resolution service *)

Lemma ReverseGeocode_out_of_range (lat lon : float64) :
  Float64.ltb lat (Float64.of_Z (-90)) = true
  \/ Float64.gtb lat (Float64.of_Z 90) = true
  \/ Float64.ltb lon (Float64.of_Z (-180)) = true
  \/ Float64.gtb lon (Float64.of_Z 180) = true ->
  exists e, service.ReverseGeocode lat lon = Ret (None, Some e).
Proof.
  intros H. unfold service.ReverseGeocode.
  destruct (Float64.ltb lat (Float64.of_Z (-90))
            || Float64.gtb lat (Float64.of_Z 90)) eqn:Hlat.
  - eauto.
  - apply orb_false_elim in Hlat as [H1 H2].
    destruct H as [H|[H|H]]; try congruence.
    assert (Hlon : Float64.ltb lon (Float64.of_Z (-180))
                   || Float64.gtb lon (Float64.of_Z 180) = true)
      by (apply orb_true_iff; tauto).
    rewrite Hlon. eauto.
Qed.

Lemma ReverseGeocode_in_range (lat lon : float64) answer :
  lat_in_range lat = true -> lon_in_range lon = true ->
  calls answer (service.ReverseGeocode lat lon)
  = [existT _ _ (service.FindNearestLocation lat lon)]
  /\ run answer (service.ReverseGeocode lat lon)
     = match answer _ (service.FindNearestLocation lat lon) with
       | (location, None) => (location, None)
       | (_, Some e) => (None, Some (service_failed_to_find_nearest_location e))
       end.
Proof.
  intros Hlat Hlon.
  unfold lat_in_range in Hlat. unfold lon_in_range in Hlon.
  apply andb_true_iff in Hlat as [Hl1 Hl2].
  apply andb_true_iff in Hlon as [Ho1 Ho2].
  unfold service.ReverseGeocode.
  rewrite (leb_not_ltb _ _ Hl1), (leb_not_gtb _ _ Hl2),
    (leb_not_ltb _ _ Ho1), (leb_not_gtb _ _ Ho2).
  simpl.
  destruct (answer _ (service.FindNearestLocation lat lon))
    as [location [e|]]; split; reflexivity.
Qed.

(** What the two services do with the inputs their checks tell apart.
    [Geocode] refuses the empty address and [ReverseGeocode] refuses a
    latitude below -90 or above 90 and a longitude below -180 or above 180
    (latitude 95, say), both without a call to the repository: the program
    is a bare [Ret].  For a non-empty address, and for coordinates within
    the ranges, the service makes exactly one call to the repository, with
    the arguments it was given, and returns the repository's value when the
    repository reports no error, an error wrapping the repository's
    otherwise. *)
Lemma service_validates_before_the_repository :
  service.Geocode "" = Ret ([], Some service_address_cannot_be_empty)
  /\ (forall lat lon,
        Float64.ltb lat (Float64.of_Z (-90)) = true
        \/ Float64.gtb lat (Float64.of_Z 90) = true
        \/ Float64.ltb lon (Float64.of_Z (-180)) = true
        \/ Float64.gtb lon (Float64.of_Z 180) = true ->
        exists e, service.ReverseGeocode lat lon = Ret (None, Some e))
  /\ (forall lon,
        service.ReverseGeocode (Float64.of_Z 95) lon
        = Ret (None, Some (service_invalid_latitude (Float64.of_Z 95))))
  /\ (forall address answer,
        address <> "" ->
        calls answer (service.Geocode address)
        = [existT _ _ (service.SearchLocationsByText address)]
        /\ run answer (service.Geocode address)
           = match answer _ (service.SearchLocationsByText address) with
             | (locations, None) => (locations, None)
             | (_, Some e) => ([], Some (service_failed_to_search_locations e))
             end)
  /\ (forall lat lon answer,
        lat_in_range lat = true -> lon_in_range lon = true ->
        calls answer (service.ReverseGeocode lat lon)
        = [existT _ _ (service.FindNearestLocation lat lon)]
        /\ run answer (service.ReverseGeocode lat lon)
           = match answer _ (service.FindNearestLocation lat lon) with
             | (location, None) => (location, None)
             | (_, Some e) =>
                 (None, Some (service_failed_to_find_nearest_location e))
             end).
Proof.
  split; [reflexivity|].
  split; [exact ReverseGeocode_out_of_range|].
  split; [reflexivity|].
  split.
  { intros address answer Hne. unfold service.Geocode.
    destruct (address =? "")%string eqn:E.
    - apply String.eqb_eq in E. contradiction.
    - simpl.
      destruct (answer _ (service.SearchLocationsByText address))
        as [locations [e|]]; split; reflexivity. }
  intros lat lon answer. apply ReverseGeocode_in_range.
Qed.

Lemma nan_not_lt (x : float64) :
  Float64.ltb Float64.NaN x = false /\ Float64.gtb Float64.NaN x = false.
Proof.
  unfold Float64.ltb, Float64.gtb, Float64.NaN, SFltb.
  split; [reflexivity|]. destruct x; reflexivity.
Qed.

Lemma calls_bind {E : Type -> Type} {A B : Type}
  (answer : forall X, E X -> X) (p : Prog E A) (f : A -> Prog E B) :
  calls answer (bind p f)
  = calls answer p ++ calls answer (f (run answer p)).
Proof.
  induction p as [a|X e k IH]; simpl; [reflexivity|].
  now rewrite IH.
Qed.

Lemma run_bind {E : Type -> Type} {A B : Type}
  (answer : forall X, E X -> X) (p : Prog E A) (f : A -> Prog E B) :
  run answer (bind p f) = run answer (f (run answer p)).
Proof.
  induction p as [a|X e k IH]; simpl; [reflexivity|]. apply IH.
Qed.

(** C7.  The latitude NaN lies outside [-90, 90], and [ReverseGeocode]
    does not refuse it: both comparisons of its range check are false on
    NaN, so the service calls the repository with the NaN latitude and
    returns what the repository found, with no error.  The input is one
    the server receives: [ParseFloat] reads the parameter [lat=NaN] as
    NaN, and the route answers 200 with the location of the repository. *)
Theorem C7_nan_latitude_reaches_the_repository :
  lat_in_range Float64.NaN = false
  /\ strconv.ParseFloat "NaN" = Some Float64.NaN
  /\ calls (api.reverseGeoCodeRepo Sample.crowded)
       (service.ReverseGeocode Float64.NaN
          (Float64.of_decimal false 139767125 (-6)))
     = [existT _ _
          (service.FindNearestLocation Float64.NaN
             (Float64.of_decimal false 139767125 (-6)))]
  /\ run (api.reverseGeoCodeRepo Sample.crowded)
       (service.ReverseGeocode Float64.NaN
          (Float64.of_decimal false 139767125 (-6)))
     = (Some (Sample.numbered 1), None)
  /\ api.reverse_geocode Sample.crowded
       [("lat", "NaN"); ("lon", "139.767125")]
     = handler.JSON 200 (handler.body_location (Sample.numbered 1)).
Proof. repeat split; vm_compute; reflexivity. Qed.

(** ** The record parser *)

Lemma len_nonneg {A : Type} (l : list A) : 0 <= GoInt.len l.
Proof. unfold GoInt.len. lia. Qed.

Lemma len_app {A : Type} (l1 l2 : list A) :
  GoInt.len (l1 ++ l2) = GoInt.len l1 + GoInt.len l2.
Proof. unfold GoInt.len. rewrite length_app. lia. Qed.

Lemma readRecords_rows (rows : list (list string)) (recs : list LocationRecord) :
  Forall2 row_parses rows recs ->
  forall tail acc,
    readRecords (map ReadRecord rows ++ tail) acc
    = readRecords tail (acc ++ recs).
Proof.
  induction 1 as [|row r rows recs Hrow _ IH]; intros tail acc; simpl.
  - now rewrite app_nil_r.
  - destruct Hrow as (Hlen & H0 & H1 & H2 & H3 & H4 & Hlat & Hlon).
    destruct (GoInt.len row <? 11) eqn:E; [apply Z.ltb_lt in E; lia|].
    rewrite Hlat, Hlon, IH, <- app_assoc. simpl.
    destruct r; simpl in *; subst. reflexivity.
Qed.

(** C5.  The first record of a file is dropped as the header, whatever it
    holds.  When every data row has at least 11 columns and columns 9 and
    10 are accepted by [ParseFloat], the file parses to one record per row,
    in order: columns 0 to 4 the address fields, columns 9 and 10 latitude
    and longitude, the other columns unused.  A first offending row makes
    the whole parse an error and no record comes out: a row with fewer than
    11 columns gives the length error carrying the length of that row, a
    refused column 9 or 10 the latitude or longitude error.  The scenario
    row, whatever stands in columns 5 to 8, parses to latitude 35.681236
    and longitude 139.767125. *)
Theorem C5_parser_contract :
  (forall header rows recs,
     Forall2 row_parses rows recs ->
     parseOpened (inr (ReadRecord header :: map ReadRecord rows)) = Ok recs)
  /\ (forall header rows recs bad rest,
        Forall2 row_parses rows recs ->
        GoInt.len bad < 11 ->
        parseOpened
          (inr (ReadRecord header :: map ReadRecord rows ++ ReadRecord bad :: rest))
        = Err (invalid_record_length (GoInt.len bad)))
  /\ (forall header rows recs bad rest,
        Forall2 row_parses rows recs ->
        11 <= GoInt.len bad ->
        strconv.ParseFloat (nth 9 bad "") = None ->
        parseOpened
          (inr (ReadRecord header :: map ReadRecord rows ++ ReadRecord bad :: rest))
        = Err (invalid_latitude (nth 9 bad "")))
  /\ (forall header rows recs bad rest lat,
        Forall2 row_parses rows recs ->
        11 <= GoInt.len bad ->
        strconv.ParseFloat (nth 9 bad "") = Some lat ->
        strconv.ParseFloat (nth 10 bad "") = None ->
        parseOpened
          (inr (ReadRecord header :: map ReadRecord rows ++ ReadRecord bad :: rest))
        = Err (invalid_longitude (nth 10 bad "")))
  /\ (forall header c5 c6 c7 c8,
        parseOpened
          (inr [ReadRecord header;
                ReadRecord ["東京都"; "千代田区"; "丸の内"; ""; "";
                            c5; c6; c7; c8; "35.681236"; "139.767125"]])
        = Ok [mkLocationRecord "東京都" "千代田区" "丸の内" "" ""
                (Float64.of_decimal false 35681236 (-6))
                (Float64.of_decimal false 139767125 (-6))]).
Proof.
  split; [|split; [|split; [|split]]].
  - intros header rows recs H. simpl.
    rewrite <- (app_nil_r (map ReadRecord rows)).
    now rewrite (readRecords_rows rows recs H).
  - intros header rows recs bad rest H Hlen. simpl.
    rewrite (readRecords_rows rows recs H). simpl.
    destruct (GoInt.len bad <? 11) eqn:E; [reflexivity|].
    apply Z.ltb_ge in E. lia.
  - intros header rows recs bad rest H Hlen Hlat. simpl.
    rewrite (readRecords_rows rows recs H). simpl.
    destruct (GoInt.len bad <? 11) eqn:E; [apply Z.ltb_lt in E; lia|].
    now rewrite Hlat.
  - intros header rows recs bad rest lat H Hlen Hlat Hlon. simpl.
    rewrite (readRecords_rows rows recs H). simpl.
    destruct (GoInt.len bad <? 11) eqn:E; [apply Z.ltb_lt in E; lia|].
    now rewrite Hlat, Hlon.
  - intros header c5 c6 c7 c8. vm_compute. reflexivity.
Qed.

Lemma C5_witness :
  parseOpened
    (inr (ReadRecord Sample.header
          :: map ReadRecord [Sample.marunouchi; Sample.akasaka]))
  = Ok [Sample.marunouchi_record; Sample.akasaka_record]
  /\ parseOpened
       (inr (ReadRecord Sample.header
             :: map ReadRecord [Sample.marunouchi]
                ++ ReadRecord Sample.short_row :: [ReadRecord Sample.akasaka]))
     = Err (invalid_record_length 3)
  /\ parseOpened
       (inr (ReadRecord Sample.header
             :: map ReadRecord [Sample.marunouchi]
                ++ ReadRecord ["a"; "b"; "c"; ""; ""; ""; ""; ""; ""; "north"; "1"]
                   :: []))
     = Err (invalid_latitude "north")
  /\ parseOpened
       (inr (ReadRecord Sample.header
             :: map ReadRecord [Sample.marunouchi]
                ++ ReadRecord ["a"; "b"; "c"; ""; ""; ""; ""; ""; ""; "1"; "east"]
                   :: []))
     = Err (invalid_longitude "east").
Proof.
  destruct C5_parser_contract as (Hok & Hshort & Hlat & Hlon & _).
  assert (Hm : row_parses Sample.marunouchi Sample.marunouchi_record)
    by (unfold row_parses; vm_compute; intuition congruence).
  assert (Ha : row_parses Sample.akasaka Sample.akasaka_record)
    by (unfold row_parses; vm_compute; intuition congruence).
  split; [|split; [|split]].
  - apply Hok. repeat (apply Forall2_cons; [assumption|]); apply Forall2_nil.
  - refine (Hshort Sample.header [Sample.marunouchi] [Sample.marunouchi_record]
              Sample.short_row [ReadRecord Sample.akasaka] _ _).
    + repeat (apply Forall2_cons; [assumption|]); apply Forall2_nil.
    + vm_compute. reflexivity.
  - refine (Hlat Sample.header [Sample.marunouchi] [Sample.marunouchi_record]
              ["a"; "b"; "c"; ""; ""; ""; ""; ""; ""; "north"; "1"] [] _ _ _).
    + repeat (apply Forall2_cons; [assumption|]); apply Forall2_nil.
    + vm_compute. discriminate.
    + vm_compute. reflexivity.
  - refine (Hlon Sample.header [Sample.marunouchi] [Sample.marunouchi_record]
              ["a"; "b"; "c"; ""; ""; ""; ""; ""; ""; "1"; "east"] []
              (Float64.of_Z 1) _ _ _ _).
    + repeat (apply Forall2_cons; [assumption|]); apply Forall2_nil.
    + vm_compute. discriminate.
    + vm_compute. reflexivity.
    + vm_compute. reflexivity.
Defined.

(** ** The repository and the HTTP routes *)

Lemma firstn_In {A : Type} (n : nat) (l : list A) (y : A) :
  In y (firstn n l) -> In y l.
Proof.
  revert l. induction n as [|n IH]; intros [|x r]; simpl; try tauto.
  intros [->|H]; auto.
Qed.

Section OrderByFacts.
Context {A : Type} (key : A -> Q).

Lemma insert_by_In (x : A) (l : list A) (y : A) :
  In y (repository.insert_by (repository.desc_by key) x l) <-> y = x \/ In y l.
Proof.
  induction l as [|z r IH]; simpl.
  - intuition.
  - destruct (repository.desc_by key x z); simpl; [intuition|]. rewrite IH. intuition.
Qed.

Lemma insert_by_descending (x : A) (l : list A) :
  descending key l -> descending key (repository.insert_by (repository.desc_by key) x l).
Proof.
  induction l as [|z r IH]; simpl; intros H.
  - split; [constructor|exact I].
  - destruct H as [Hz Hr]. destruct (repository.desc_by key x z) eqn:E; simpl.
    + apply Qle_bool_iff in E. split; [|split; assumption].
      constructor; [assumption|].
      eapply Forall_impl; [|exact Hz]. intros b Hb. simpl in Hb.
      exact (Qle_trans _ _ _ Hb E).
    + split; [|auto].
      apply Forall_forall. intros y Hy. apply insert_by_In in Hy.
      destruct Hy as [->|Hy].
      * apply Qlt_le_weak, Qnot_le_lt. intros Hle.
        apply Qle_bool_iff in Hle. unfold repository.desc_by in E. congruence.
      * rewrite Forall_forall in Hz. auto.
Qed.

Lemma order_by_descending (l : list A) :
  descending key (repository.order_by (repository.desc_by key) l).
Proof.
  induction l as [|x r IH]; simpl; [exact I|].
  now apply insert_by_descending.
Qed.

Lemma order_by_In (l : list A) (y : A) :
  In y (repository.order_by (repository.desc_by key) l) <-> In y l.
Proof.
  induction l as [|x r IH]; simpl; [tauto|].
  rewrite insert_by_In, IH. intuition.
Qed.

Lemma firstn_descending (n : nat) (l : list A) :
  descending key l -> descending key (firstn n l).
Proof.
  revert l. induction n as [|n IH]; intros [|x r]; simpl; try tauto.
  intros [Hx Hr]. split; [|auto].
  apply Forall_forall. intros y Hy. apply firstn_In in Hy.
  rewrite Forall_forall in Hx. auto.
Qed.
End OrderByFacts.

Lemma scanRows_result (r : repository.Repository) rows acc :
  (exists e, repository.scanRows r rows acc = ([], Some e))
  \/ repository.scanRows r rows acc = (acc ++ rows, None).
Proof.
  revert acc. induction rows as [|loc rest IH]; intros acc; simpl.
  - right. now rewrite app_nil_r.
  - destruct (repository.scan_err r loc); [left; eauto|].
    destruct (IH (acc ++ [loc])) as [H|H]; [left; exact H|right].
    now rewrite H, <- app_assoc.
Qed.

Lemma SearchLocationsByText_result (r : repository.Repository) query :
  (exists e, repository.SearchLocationsByText r query = ([], Some e))
  \/ repository.SearchLocationsByText r query
     = (repository.search_rows r query, None).
Proof.
  unfold repository.SearchLocationsByText.
  destruct (repository.query_err r); [left; eauto|].
  destruct (scanRows_result r (repository.search_rows r query) [])
    as [[e ->]| ->]; [left; eauto|].
  destruct (repository.rows_err r); [left; eauto|now right].
Qed.

Lemma geocode_response (repo : repository.Repository) (c : handler.Context) :
  api.geocode repo c
  = if (handler.Query c "q" =? "")%string
    then handler.JSON 400 (handler.body_error "missing required query parameter 'q'")
    else
      match repository.SearchLocationsByText repo (handler.Query c "q") with
      | (_, Some _) =>
          handler.JSON 500 (handler.body_error "internal server error")
      | (locations, None) => handler.JSON 200 (handler.body_locations locations)
      end.
Proof.
  unfold api.geocode, handler.GeoCode.
  destruct (handler.Query c "q" =? "")%string eqn:E; [reflexivity|].
  simpl. unfold service.Geocode. rewrite E. simpl.
  destruct (repository.SearchLocationsByText repo (handler.Query c "q"))
    as [locations [e|]]; reflexivity.
Qed.

(** C10.  The text search keeps the rows that match, orders them by
    descending rank and keeps at most 10 of them; the repository returns
    those rows or an error with no rows; so the body of a [/geocode]
    response never lists more than 10 locations, however many rows of the
    table match, and a 200 response lists exactly the rows of the query. *)
Theorem C10_geocode_at_most_ten (repo : repository.Repository) :
  (forall query,
     (List.length (repository.search_rows repo query) <= 10)%nat
     /\ descending (repository.ts_rank (repository.engine repo) query)
          (repository.search_rows repo query)
     /\ Forall
          (fun loc =>
             repository.tsquery_matches (repository.engine repo) query loc = true
             /\ In loc (repository.table repo))
          (repository.search_rows repo query))
  /\ (forall query,
        (List.length (fst (repository.SearchLocationsByText repo query)) <= 10)%nat)
  /\ (forall c,
        match handler.body (api.geocode repo c) with
        | handler.body_locations locations => (List.length locations <= 10)%nat
        | _ => True
        end)
  /\ (forall c,
        handler.status (api.geocode repo c) = 200 ->
        handler.body (api.geocode repo c)
        = handler.body_locations
            (repository.search_rows repo (handler.Query c "q"))).
Proof.
  assert (Hlen : forall query,
             (List.length (repository.search_rows repo query) <= 10)%nat)
    by (intros query; apply firstn_le_length).
  assert (Hres : forall query,
             (List.length (fst (repository.SearchLocationsByText repo query))
              <= 10)%nat).
  { intros query.
    destruct (SearchLocationsByText_result repo query) as [[e ->]| ->]; simpl;
      [lia|apply Hlen]. }
  split; [|split; [|split]].
  - intros query. split; [apply Hlen|]. split.
    + unfold repository.search_rows.
      apply firstn_descending.
      apply (order_by_descending
               (repository.ts_rank (repository.engine repo) query)).
    + apply Forall_forall. intros loc Hin. unfold repository.search_rows in Hin.
      apply firstn_In in Hin.
      apply (proj1 (order_by_In
                      (repository.ts_rank (repository.engine repo) query) _ _))
        in Hin.
      apply (proj1 (filter_In _ _ _)) in Hin. tauto.
  - exact Hres.
  - intros c. rewrite geocode_response.
    destruct (handler.Query c "q" =? "")%string; simpl; [exact I|].
    specialize (Hres (handler.Query c "q")).
    destruct (repository.SearchLocationsByText repo (handler.Query c "q"))
      as [locations [e|]]; simpl in *; [exact I|exact Hres].
  - intros c. rewrite geocode_response.
    destruct (handler.Query c "q" =? "")%string; simpl; [discriminate|].
    destruct (SearchLocationsByText_result repo (handler.Query c "q"))
      as [[e ->]| ->]; simpl; [discriminate|reflexivity].
Qed.

Lemma C10_witness :
  handler.body (api.geocode Sample.crowded [("q", "丸の内")])
  = handler.body_locations (repository.search_rows Sample.crowded "丸の内")
  /\ List.length (repository.search_rows Sample.crowded "丸の内") = 10%nat
  /\ List.length (repository.table Sample.crowded) = 12%nat.
Proof.
  split; [|split; reflexivity].
  apply (proj2 (proj2 (proj2 (C10_geocode_at_most_ten Sample.crowded)))
           [("q", "丸の内")]).
  vm_compute. reflexivity.
Defined.

Lemma reverse_geocode_response
  (answer : forall X, service.ReverseGeoCodeRepository X -> X)
  (c : handler.Context) (lat lon : float64) :
  handler.Query c "lat" <> "" -> handler.Query c "lon" <> "" ->
  strconv.ParseFloat (handler.Query c "lat") = Some lat ->
  strconv.ParseFloat (handler.Query c "lon") = Some lon ->
  run answer (interp api.reverseGeocodeService (handler.ReverseGeocode c))
  = match run answer (service.ReverseGeocode lat lon) with
    | (_, Some _) => handler.JSON 500 (handler.body_error "internal server error")
    | (None, None) =>
        handler.JSON 404
          (handler.body_error "no address found near the specified coordinates")
    | (Some loc, None) => handler.JSON 200 (handler.body_location loc)
    end.
Proof.
  intros Hlat Hlon Plat Plon. unfold handler.ReverseGeocode.
  apply String.eqb_neq in Hlat, Hlon. rewrite Hlat, Hlon, Plat, Plon. simpl.
  unfold service.ReverseGeocode.
  destruct (Float64.ltb lat (Float64.of_Z (-90))
            || Float64.gtb lat (Float64.of_Z 90)); [reflexivity|].
  destruct (Float64.ltb lon (Float64.of_Z (-180))
            || Float64.gtb lon (Float64.of_Z 180)); [reflexivity|].
  simpl.
  destruct (answer _ (service.FindNearestLocation lat lon))
    as [[loc|] [e|]]; reflexivity.
Qed.

Lemma reverse_geocode_calls
  (answer : forall X, service.ReverseGeoCodeRepository X -> X)
  (c : handler.Context) (lat lon : float64) :
  handler.Query c "lat" <> "" -> handler.Query c "lon" <> "" ->
  strconv.ParseFloat (handler.Query c "lat") = Some lat ->
  strconv.ParseFloat (handler.Query c "lon") = Some lon ->
  calls answer (interp api.reverseGeocodeService (handler.ReverseGeocode c))
  = calls answer (service.ReverseGeocode lat lon).
Proof.
  intros Hlat Hlon Plat Plon. unfold handler.ReverseGeocode.
  apply String.eqb_neq in Hlat, Hlon. rewrite Hlat, Hlon, Plat, Plon. simpl.
  rewrite calls_bind.
  destruct (run answer (service.ReverseGeocode lat lon)) as [[loc|] [e|]];
    simpl; apply app_nil_r.
Qed.

Lemma reverse_geocode_bad_request
  (answer : forall X, service.ReverseGeoCodeRepository X -> X)
  (c : handler.Context) :
  handler.Query c "lat" = "" \/ handler.Query c "lon" = ""
  \/ strconv.ParseFloat (handler.Query c "lat") = None
  \/ strconv.ParseFloat (handler.Query c "lon") = None ->
  handler.status
    (run answer (interp api.reverseGeocodeService (handler.ReverseGeocode c)))
  = 400
  /\ calls answer (interp api.reverseGeocodeService (handler.ReverseGeocode c))
     = [].
Proof.
  intros H. unfold handler.ReverseGeocode.
  destruct ((handler.Query c "lat" =? "")%string
            || (handler.Query c "lon" =? "")%string) eqn:E;
    [split; reflexivity|].
  apply orb_false_elim in E as [E1 E2]. apply String.eqb_neq in E1, E2.
  destruct (strconv.ParseFloat (handler.Query c "lat")) as [lat|];
    [|split; reflexivity].
  destruct (strconv.ParseFloat (handler.Query c "lon")) as [lon|];
    [|split; reflexivity].
  destruct H as [H|[H|[H|H]]]; try contradiction; discriminate.
Qed.

(** C4, as the code has it.  For every request: the handler answers 400,
    without calling the service, when [lat] or [lon] is missing or is
    refused by [ParseFloat].  For every other request the service is
    called with the two numbers and its result alone decides the answer:
    500 with the body of an internal error whenever the service reports an
    error, 404 when it returns no location and no error, 200 with the
    location when it returns one; the repository is called as the service
    calls it.  So the route answers 500 for a latitude below -90 or above
    90 and for a longitude below -180 or above 180 (the repository is not
    called), and for an error of the repository; for coordinates within
    the ranges it answers 404 when the repository returns no location and
    no error, and 200 with the location when the repository returns one. *)
Theorem C4_reverse_geocode_status_mapping
  (answer : forall X, service.ReverseGeoCodeRepository X -> X)
  (c : handler.Context) :
  let p := interp api.reverseGeocodeService (handler.ReverseGeocode c) in
  let resp := run answer p in
  (handler.Query c "lat" = "" \/ handler.Query c "lon" = "" ->
   handler.status resp = 400 /\ calls answer p = [])
  /\ (strconv.ParseFloat (handler.Query c "lat") = None
      \/ strconv.ParseFloat (handler.Query c "lon") = None ->
      handler.status resp = 400 /\ calls answer p = [])
  /\ (forall lat lon,
        handler.Query c "lat" <> "" -> handler.Query c "lon" <> "" ->
        strconv.ParseFloat (handler.Query c "lat") = Some lat ->
        strconv.ParseFloat (handler.Query c "lon") = Some lon ->
        (resp
         = match run answer (service.ReverseGeocode lat lon) with
           | (_, Some _) =>
               handler.JSON 500 (handler.body_error "internal server error")
           | (None, None) =>
               handler.JSON 404
                 (handler.body_error
                    "no address found near the specified coordinates")
           | (Some loc, None) => handler.JSON 200 (handler.body_location loc)
           end
         /\ calls answer p = calls answer (service.ReverseGeocode lat lon))
        /\ (Float64.ltb lat (Float64.of_Z (-90)) = true
            \/ Float64.gtb lat (Float64.of_Z 90) = true
            \/ Float64.ltb lon (Float64.of_Z (-180)) = true
            \/ Float64.gtb lon (Float64.of_Z 180) = true ->
            resp = handler.JSON 500 (handler.body_error "internal server error")
            /\ calls answer p = [])
        /\ (lat_in_range lat = true -> lon_in_range lon = true ->
            resp
            = match answer _ (service.FindNearestLocation lat lon) with
              | (_, Some _) =>
                  handler.JSON 500 (handler.body_error "internal server error")
              | (None, None) =>
                  handler.JSON 404
                    (handler.body_error
                       "no address found near the specified coordinates")
              | (Some loc, None) => handler.JSON 200 (handler.body_location loc)
              end)).
Proof.
  intros p resp. split; [|split].
  - intros H. apply reverse_geocode_bad_request. tauto.
  - intros H. apply reverse_geocode_bad_request. tauto.
  - intros lat lon Hlat Hlon Plat Plon.
    pose proof (reverse_geocode_response answer c lat lon Hlat Hlon Plat Plon)
      as Hresp.
    pose proof (reverse_geocode_calls answer c lat lon Hlat Hlon Plat Plon)
      as Hcalls.
    fold p in Hresp, Hcalls. fold resp in Hresp.
    split; [split; assumption|]. split.
    + intros Hout.
      destruct (ReverseGeocode_out_of_range lat lon Hout) as [e He].
      rewrite Hresp, Hcalls, He. split; reflexivity.
    + intros Rlat Rlon. rewrite Hresp.
      rewrite (proj2 (ReverseGeocode_in_range lat lon answer Rlat Rlon)).
      destruct (answer _ (service.FindNearestLocation lat lon))
        as [[loc|] [e|]]; reflexivity.
Qed.

Lemma C4_witness :
  handler.status
    (run (api.reverseGeoCodeRepo Sample.crowded)
       (interp api.reverseGeocodeService
          (handler.ReverseGeocode [("lat", "35.681236")]))) = 400
  /\ handler.status
       (run (api.reverseGeoCodeRepo Sample.crowded)
          (interp api.reverseGeocodeService
             (handler.ReverseGeocode [("lat", "north"); ("lon", "139.767125")])))
     = 400
  /\ run (api.reverseGeoCodeRepo Sample.crowded)
       (interp api.reverseGeocodeService
          (handler.ReverseGeocode [("lat", "-91"); ("lon", "139.767125")]))
     = handler.JSON 500 (handler.body_error "internal server error")
  /\ run (api.reverseGeoCodeRepo Sample.crowded)
       (interp api.reverseGeocodeService
          (handler.ReverseGeocode [("lat", "35.681236"); ("lon", "139.767125")]))
     = handler.JSON 200 (handler.body_location (Sample.numbered 1))
  /\ run (api.reverseGeoCodeRepo Sample.repo)
       (interp api.reverseGeocodeService
          (handler.ReverseGeocode [("lat", "NaN"); ("lon", "139.767125")]))
     = handler.JSON 500 (handler.body_error "internal server error").
Proof.
  split; [|split; [|split; [|split]]].
  - apply (C4_reverse_geocode_status_mapping
             (api.reverseGeoCodeRepo Sample.crowded) [("lat", "35.681236")]).
    right. reflexivity.
  - apply (C4_reverse_geocode_status_mapping
             (api.reverseGeoCodeRepo Sample.crowded)
             [("lat", "north"); ("lon", "139.767125")]).
    left. vm_compute. reflexivity.
  - destruct (C4_reverse_geocode_status_mapping
                (api.reverseGeoCodeRepo Sample.crowded)
                [("lat", "-91"); ("lon", "139.767125")]) as (_ & _ & H).
    destruct (H (Float64.of_Z (-91)) (Float64.of_decimal false 139767125 (-6)))
      as (_ & Hout & _);
      [discriminate|discriminate|vm_compute; reflexivity
      |vm_compute; reflexivity|].
    apply Hout. left. vm_compute. reflexivity.
  - destruct (C4_reverse_geocode_status_mapping
                (api.reverseGeoCodeRepo Sample.crowded)
                [("lat", "35.681236"); ("lon", "139.767125")]) as (_ & _ & H).
    destruct (H (Float64.of_decimal false 35681236 (-6))
                (Float64.of_decimal false 139767125 (-6)))
      as (_ & _ & Hin);
      [discriminate|discriminate|vm_compute; reflexivity
      |vm_compute; reflexivity|].
    rewrite Hin; vm_compute; reflexivity.
  - destruct (C4_reverse_geocode_status_mapping
                (api.reverseGeoCodeRepo Sample.repo)
                [("lat", "NaN"); ("lon", "139.767125")]) as (_ & _ & H).
    destruct (H Float64.NaN (Float64.of_decimal false 139767125 (-6)))
      as ((Hresp & _) & _);
      [discriminate|discriminate|vm_compute; reflexivity
      |vm_compute; reflexivity|].
    rewrite Hresp. vm_compute. reflexivity.
Defined.

(** The request [lat=95] carries a well-formed latitude that lies outside
    [-90, 90]; the route answers 500, with the body of an internal error,
    and not 400. *)
Lemma C4_out_of_range_latitude_answers_500 :
  strconv.ParseFloat "95" = Some (Float64.of_Z 95)
  /\ lat_in_range (Float64.of_Z 95) = false
  /\ api.reverse_geocode Sample.crowded [("lat", "95"); ("lon", "139.767125")]
     = handler.JSON 500 (handler.body_error "internal server error")
  /\ handler.status
       (api.reverse_geocode Sample.crowded [("lat", "95"); ("lon", "139.767125")])
     <> 400.
Proof. repeat split; try (vm_compute; reflexivity). vm_compute. discriminate. Qed.

(** With the PostgreSQL repository a query that finds no row within the
    radius comes back as an error of the repository, so the route answers
    500 there as well; the 404 of the handler needs a repository that
    returns neither a location nor an error. *)
Lemma reverse_geocode_no_row_answers_500
  (repo : repository.Repository) (c : handler.Context) (lat lon : float64) :
  handler.Query c "lat" <> "" -> handler.Query c "lon" <> "" ->
  strconv.ParseFloat (handler.Query c "lat") = Some lat ->
  strconv.ParseFloat (handler.Query c "lon") = Some lon ->
  lat_in_range lat = true -> lon_in_range lon = true ->
  repository.query_err repo = None ->
  repository.nearest_rows repo lat lon = [] ->
  api.reverse_geocode repo c
  = handler.JSON 500 (handler.body_error "internal server error").
Proof.
  intros Hlat Hlon Plat Plon Rlat Rlon Hq Hrows. unfold api.reverse_geocode.
  rewrite (reverse_geocode_response _ c lat lon Hlat Hlon Plat Plon).
  rewrite (proj2 (ReverseGeocode_in_range lat lon _ Rlat Rlon)).
  simpl. unfold repository.FindNearestLocation, repository.queryRowScan.
  rewrite Hq, Hrows. reflexivity.
Qed.

Lemma FindNearestLocation_never_nil_nil
  (repo : repository.Repository) (lat lon : float64) :
  repository.FindNearestLocation repo lat lon <> (None, None).
Proof.
  unfold repository.FindNearestLocation.
  destruct (repository.queryRowScan repo lat lon) as [msg|loc];
    [destruct (msg =? "no rows in result set")%string|]; discriminate.
Qed.

(** ** The importer: one file of the directory loop *)

Arguments GoInt.wrap : simpl never.
Arguments GoInt.add : simpl never.
Arguments GoInt.incr : simpl never.
Arguments GoInt.len : simpl never.
Arguments parseOpened : simpl never.
Arguments ledger_has : simpl never.
Arguments processFile : simpl never.
Arguments well_formed : simpl never.
Arguments malformed : simpl never.
Arguments file_records : simpl never.

Lemma grows_refl (P : Event -> Prop) (w : World) : grows P w w.
Proof. exists []. split; [now rewrite app_nil_r|constructor]. Qed.

Lemma grows_trans (P : Event -> Prop) (w1 w2 w3 : World) :
  grows P w1 w2 -> grows P w2 w3 -> grows P w1 w3.
Proof.
  intros (e1 & H1 & F1) (e2 & H2 & F2). exists (e1 ++ e2). split.
  - now rewrite H2, H1, app_assoc.
  - apply Forall_app. split; assumption.
Qed.

Lemma grows_events (P : Event -> Prop) (w w' : World) (evs : list Event) :
  trace w' = trace w ++ evs -> Forall P evs -> grows P w w'.
Proof. intros H F. exists evs. split; assumption. Qed.

Lemma grows_added (P : Event -> Prop) (w w' : World) :
  grows P w w' -> Forall P (added w w').
Proof.
  intros (evs & H & F). unfold added. rewrite H, skipn_app, skipn_all.
  rewrite Nat.sub_diag. simpl. exact F.
Qed.

Lemma grows_impl (P Q : Event -> Prop) (w w' : World) :
  (forall ev, P ev -> Q ev) -> grows P w w' -> grows Q w w'.
Proof.
  intros H (evs & Ht & F). exists evs. split; [exact Ht|].
  eapply Forall_impl; [exact H|exact F].
Qed.

(** The six ways through the body of the loop. *)

Lemma processFile_check_failed env f c w msg :
  hd None (faults w) = Some msg ->
  processFile env f (c, w)
  = (fail_file c,
     mkWorld (locations w) (processed_files w) (tl (faults w))
       (trace w ++
        [EvPrint (msg_processing_file f); EvIsFileProcessed f;
         EvPrint (msg_error_checking_processed (errorString msg))])).
Proof.
  intros H. unfold processFile, isFileProcessed, roundtrip, print, log. simpl.
  rewrite H. simpl. now rewrite <- !app_assoc.
Qed.

Lemma processFile_skipped env f c w :
  hd None (faults w) = None ->
  ledger_has f (processed_files w) = true ->
  processFile env f (c, w)
  = (c,
     mkWorld (locations w) (processed_files w) (tl (faults w))
       (trace w ++
        [EvPrint (msg_processing_file f); EvIsFileProcessed f;
         EvPrint (msg_skipping f)])).
Proof.
  intros H L. unfold processFile, isFileProcessed, roundtrip, print, log. simpl.
  rewrite H. simpl. rewrite L. simpl. now rewrite <- !app_assoc.
Qed.

Lemma processFile_parse_failed env f c w e :
  hd None (faults w) = None ->
  ledger_has f (processed_files w) = false ->
  parseOpened (Open env f) = Err e ->
  processFile env f (c, w)
  = (fail_file c,
     mkWorld (locations w) (processed_files w) (tl (faults w))
       (trace w ++
        [EvPrint (msg_processing_file f); EvIsFileProcessed f; EvOpen f;
         EvPrint (msg_error_parsing_csv_file f e)])).
Proof.
  intros H L E.
  unfold processFile, isFileProcessed, parseCSV, roundtrip, print, log. simpl.
  rewrite H. simpl. rewrite L, E. simpl. now rewrite <- !app_assoc.
Qed.

Lemma processFile_insert_failed env f c w records msg :
  hd None (faults w) = None ->
  ledger_has f (processed_files w) = false ->
  parseOpened (Open env f) = Ok records ->
  hd None (tl (faults w)) = Some msg ->
  processFile env f (c, w)
  = (fail_file c,
     mkWorld (locations w) (processed_files w) (tl (tl (faults w)))
       (trace w ++
        [EvPrint (msg_processing_file f); EvIsFileProcessed f; EvOpen f;
         EvPrint (msg_parsed_from (GoInt.len records) f); EvCopyFrom records;
         EvPrint (msg_error_inserting_from f (errorString msg))])).
Proof.
  intros H L E I.
  unfold processFile, isFileProcessed, parseCSV, insertRecords, roundtrip,
    print, log. simpl.
  rewrite H. simpl. rewrite L, E. simpl. rewrite I. simpl.
  now rewrite <- !app_assoc.
Qed.

Lemma processFile_mark_failed env f c w records msg :
  hd None (faults w) = None ->
  ledger_has f (processed_files w) = false ->
  parseOpened (Open env f) = Ok records ->
  hd None (tl (faults w)) = None ->
  hd None (tl (tl (faults w))) = Some msg ->
  processFile env f (c, w)
  = (count_file records c,
     mkWorld (locations w ++ records) (processed_files w)
       (tl (tl (tl (faults w))))
       (trace w ++
        [EvPrint (msg_processing_file f); EvIsFileProcessed f; EvOpen f;
         EvPrint (msg_parsed_from (GoInt.len records) f); EvCopyFrom records;
         EvMarkFileProcessed f (GoInt.len records);
         EvPrint (msg_error_marking_processed (errorString msg));
         EvPrint (msg_successfully_processed f (GoInt.len records))])).
Proof.
  intros H L E I M.
  unfold processFile, isFileProcessed, parseCSV, insertRecords,
    markFileProcessed, roundtrip, set_locations, print, log. simpl.
  rewrite H. simpl. rewrite L, E. simpl. rewrite I. simpl. rewrite M. simpl.
  now rewrite <- !app_assoc.
Qed.

Lemma processFile_ledgered env f c w records :
  hd None (faults w) = None ->
  ledger_has f (processed_files w) = false ->
  parseOpened (Open env f) = Ok records ->
  hd None (tl (faults w)) = None ->
  hd None (tl (tl (faults w))) = None ->
  processFile env f (c, w)
  = (count_file records c,
     mkWorld (locations w ++ records)
       (processed_files w ++ [(f, GoInt.len records)])
       (tl (tl (tl (faults w))))
       (trace w ++
        [EvPrint (msg_processing_file f); EvIsFileProcessed f; EvOpen f;
         EvPrint (msg_parsed_from (GoInt.len records) f); EvCopyFrom records;
         EvMarkFileProcessed f (GoInt.len records);
         EvPrint (msg_successfully_processed f (GoInt.len records))])).
Proof.
  intros H L E I M.
  unfold processFile, isFileProcessed, parseCSV, insertRecords,
    markFileProcessed, roundtrip, set_locations, set_processed_files, print,
    log. simpl.
  rewrite H. simpl. rewrite L, E. simpl. rewrite I. simpl. rewrite M. simpl.
  rewrite L. simpl. now rewrite <- !app_assoc.
Qed.

Lemma added_app (w : World) l p fl (evs : list Event) :
  added w (mkWorld l p fl (trace w ++ evs)) = evs.
Proof.
  unfold added. simpl. rewrite skipn_app, skipn_all, Nat.sub_diag. reflexivity.
Qed.

Lemma reliable_answers (w : World) :
  reliable w ->
  hd None (faults w) = None
  /\ hd None (tl (faults w)) = None
  /\ hd None (tl (tl (faults w))) = None
  /\ tl (faults w) = [] /\ tl (tl (faults w)) = []
  /\ tl (tl (tl (faults w))) = [].
Proof. unfold reliable. intros ->. repeat split. Qed.

(** Whatever the store answers, a file only ever adds rows to the two
    tables, and logs nothing but the events of a directory run. *)
Lemma processFile_shape env f c w :
  exists c' ins led fl evs,
    processFile env f (c, w)
    = (c', mkWorld (locations w ++ ins) (processed_files w ++ led) fl
             (trace w ++ evs))
    /\ (forall files, In f files -> Forall (directory_event env files) evs).
Proof.
  destruct (hd None (faults w)) as [msg|] eqn:H.
  { rewrite (processFile_check_failed env f c w msg H).
    exists (fail_file c), [], [], (tl (faults w)). eexists.
    rewrite (app_nil_r (locations w)), (app_nil_r (processed_files w)). split; [reflexivity|].
    intros files Hin. repeat constructor; assumption. }
  destruct (ledger_has f (processed_files w)) eqn:L.
  { rewrite (processFile_skipped env f c w H L).
    exists c, [], [], (tl (faults w)). eexists.
    rewrite (app_nil_r (locations w)), (app_nil_r (processed_files w)). split; [reflexivity|].
    intros files Hin. repeat constructor; assumption. }
  destruct (parseOpened (Open env f)) as [records|e] eqn:E.
  2:{ rewrite (processFile_parse_failed env f c w e H L E).
      exists (fail_file c), [], [], (tl (faults w)). eexists.
      rewrite (app_nil_r (locations w)), (app_nil_r (processed_files w)). split; [reflexivity|].
      intros files Hin. repeat constructor; assumption. }
  destruct (hd None (tl (faults w))) as [msg|] eqn:I.
  { rewrite (processFile_insert_failed env f c w records msg H L E I).
    exists (fail_file c), [], [], (tl (tl (faults w))). eexists.
    rewrite (app_nil_r (locations w)), (app_nil_r (processed_files w)). split; [reflexivity|].
    intros files Hin. repeat constructor; simpl; eauto. }
  destruct (hd None (tl (tl (faults w)))) as [msg|] eqn:M.
  { rewrite (processFile_mark_failed env f c w records msg H L E I M).
    exists (count_file records c), records, [], (tl (tl (tl (faults w)))).
    eexists. rewrite (app_nil_r (processed_files w)). split; [reflexivity|].
    intros files Hin. repeat constructor; simpl; eauto. }
  rewrite (processFile_ledgered env f c w records H L E I M).
  exists (count_file records c), records, [(f, GoInt.len records)],
    (tl (tl (tl (faults w)))).
  eexists. split; [reflexivity|].
  intros files Hin. repeat constructor; simpl; eauto.
Qed.

Lemma processFiles_shape env files :
  forall c w,
  exists c' ins led fl evs,
    processFiles env files (c, w)
    = (c', mkWorld (locations w ++ ins) (processed_files w ++ led) fl
             (trace w ++ evs))
    /\ (forall all, incl files all -> Forall (directory_event env all) evs).
Proof.
  induction files as [|f rest IH]; intros c w; simpl.
  - exists c, [], [], (faults w), []. rewrite !app_nil_r. split.
    + now destruct w.
    + constructor.
  - destruct (processFile_shape env f c w)
      as (c1 & ins1 & led1 & fl1 & evs1 & -> & F1).
    destruct (IH c1 (mkWorld (locations w ++ ins1) (processed_files w ++ led1)
                       fl1 (trace w ++ evs1)))
      as (c2 & ins2 & led2 & fl2 & evs2 & -> & F2).
    simpl. exists c2, (ins1 ++ ins2), (led1 ++ led2), fl2, (evs1 ++ evs2).
    rewrite !app_assoc. split; [reflexivity|].
    intros all Hincl. apply Forall_app. split.
    + apply F1, Hincl. now left.
    + apply F2. intros x Hx. apply Hincl. now right.
Qed.

Lemma ledger_has_app f l1 l2 :
  ledger_has f (l1 ++ l2) = ledger_has f l1 || ledger_has f l2.
Proof. unfold ledger_has. apply existsb_app. Qed.

Lemma ledger_has_one f g n :
  ledger_has f [(g, n)] = (g =? f)%string.
Proof. unfold ledger_has. simpl. apply orb_false_r. Qed.

(** *** A store that answers every round trip *)

Lemma processFile_reliable env f c w :
  reliable w ->
  exists tr,
    processFile env f (c, w)
    = if ledger_has f (processed_files w)
      then (c, mkWorld (locations w) (processed_files w) [] tr)
      else
        match parseOpened (Open env f) with
        | Err _ =>
            (fail_file c, mkWorld (locations w) (processed_files w) [] tr)
        | Ok records =>
            (count_file records c,
             mkWorld (locations w ++ records)
               (processed_files w ++ [(f, GoInt.len records)]) [] tr)
        end.
Proof.
  intros R. destruct (reliable_answers w R) as (H & I & M & T1 & T2 & T3).
  destruct (ledger_has f (processed_files w)) eqn:L.
  { rewrite (processFile_skipped env f c w H L), T1. eauto. }
  destruct (parseOpened (Open env f)) as [records|e] eqn:E.
  - rewrite (processFile_ledgered env f c w records H L E I M), T3. eauto.
  - rewrite (processFile_parse_failed env f c w e H L E), T1. eauto.
Qed.

Lemma processFiles_reliable env files :
  forall c w, reliable w -> reliable (snd (processFiles env files (c, w))).
Proof.
  induction files as [|f rest IH]; intros c w R; simpl; [exact R|].
  destruct (processFile_reliable env f c w R) as [tr ->].
  destruct (ledger_has f (processed_files w));
    [|destruct (parseOpened (Open env f))]; apply IH; reflexivity.
Qed.

(** Files that are on the ledger or that do not parse leave the tables and
    the two success counters alone. *)
Lemma processFiles_settled env files :
  forall c w,
    reliable w ->
    (forall f, In f files ->
               ledger_has f (processed_files w) = true \/ malformed env f = true) ->
    let st := processFiles env files (c, w) in
    locations (snd st) = locations w
    /\ processed_files (snd st) = processed_files w
    /\ totalRecords (fst st) = totalRecords c
    /\ processedFiles (fst st) = processedFiles c.
Proof.
  induction files as [|f rest IH]; intros c w R S; simpl; [tauto|].
  destruct (processFile_reliable env f c w R) as [tr ->].
  assert (Srest : forall g, In g rest ->
            ledger_has g (processed_files w) = true \/ malformed env g = true)
    by (intros g Hg; apply S; now right).
  destruct (ledger_has f (processed_files w)) eqn:L.
  { apply (IH c (mkWorld (locations w) (processed_files w) [] tr));
      [reflexivity|exact Srest]. }
  destruct (S f (or_introl eq_refl)) as [H|H]; [congruence|].
  unfold malformed, well_formed in H.
  destruct (parseOpened (Open env f)); [discriminate|].
  apply (IH (fail_file c) (mkWorld (locations w) (processed_files w) [] tr));
    [reflexivity|exact Srest].
Qed.

Lemma processFiles_ledger_kept env files c w f :
  ledger_has f (processed_files w) = true ->
  ledger_has f (processed_files (snd (processFiles env files (c, w)))) = true.
Proof.
  intros H.
  destruct (processFiles_shape env files c w)
    as (c' & ins & led & fl & evs & -> & _).
  simpl. rewrite ledger_has_app, H. reflexivity.
Qed.

(** After a run, every file of the run is on the ledger or does not
    parse. *)
Lemma processFiles_settles env files :
  forall c w,
    reliable w ->
    forall f, In f files ->
      ledger_has f (processed_files (snd (processFiles env files (c, w)))) = true
      \/ malformed env f = true.
Proof.
  induction files as [|g rest IH]; intros c w R f Hin; simpl in *; [tauto|].
  destruct (processFile_reliable env g c w R) as [tr Hg].
  destruct Hin as [<-|Hin].
  - rewrite Hg. unfold malformed, well_formed.
    destruct (ledger_has g (processed_files w)) eqn:L.
    + left. now apply processFiles_ledger_kept.
    + destruct (parseOpened (Open env g)) as [records|e]; [left|now right].
      apply processFiles_ledger_kept. simpl.
      rewrite ledger_has_app, ledger_has_one, String.eqb_refl.
      apply orb_true_r.
  - rewrite Hg.
    destruct (ledger_has g (processed_files w));
      [|destruct (parseOpened (Open env g))]; apply IH; auto; reflexivity.
Qed.

(** From a ledger that knows none of the files, each well-formed file is
    inserted once, in the order of the walk. *)
Lemma processFiles_fresh env files :
  forall c w,
    reliable w ->
    NoDup files ->
    (forall f, In f files -> ledger_has f (processed_files w) = false) ->
    let st := processFiles env files (c, w) in
    locations (snd st) = locations w ++ flat_map (file_records env) files
    /\ processedFiles (fst st)
       = Nat.iter (List.length (filter (well_formed env) files)) GoInt.incr
           (processedFiles c)
    /\ failedFiles (fst st)
       = Nat.iter (List.length (filter (malformed env) files)) GoInt.incr
           (failedFiles c)
    /\ totalRecords (fst st)
       = fold_left (fun t f => GoInt.add t (GoInt.len (file_records env f)))
           (filter (well_formed env) files) (totalRecords c).
Proof.
  induction files as [|f rest IH]; intros c w R ND Fresh.
  - simpl. rewrite app_nil_r. tauto.
  - inversion ND as [|? ? Hnotin ND']; subst.
    cbn [processFiles]. cbv zeta.
    destruct (processFile_reliable env f c w R) as [tr ->].
    rewrite (Fresh f (or_introl eq_refl)).
    destruct (parseOpened (Open env f)) as [records|e] eqn:E.
    + assert (Hwf : well_formed env f = true)
        by (unfold well_formed; now rewrite E).
      assert (Hmf : malformed env f = false)
        by (unfold malformed; now rewrite Hwf).
      assert (Hrec : file_records env f = records)
        by (unfold file_records; now rewrite E).
      destruct (IH (count_file records c)
                  (mkWorld (locations w ++ records)
                     (processed_files w ++ [(f, GoInt.len records)]) [] tr))
        as (Hl & Hp & Hf & Ht); [reflexivity|exact ND'| |].
      { intros g Hg. simpl.
        rewrite ledger_has_app, ledger_has_one, (Fresh g (or_intror Hg)).
        simpl. apply String.eqb_neq. intros ->. contradiction. }
      simpl. rewrite Hwf, Hmf, Hrec. simpl in *.
      rewrite Hl, Hp, Hf, Ht, Hrec, <- app_assoc.
      rewrite <- Nat.iter_succ_r. tauto.
    + assert (Hwf : well_formed env f = false)
        by (unfold well_formed; now rewrite E).
      assert (Hmf : malformed env f = true)
        by (unfold malformed; now rewrite Hwf).
      assert (Hrec : file_records env f = [])
        by (unfold file_records; now rewrite E).
      destruct (IH (fail_file c)
                  (mkWorld (locations w) (processed_files w) [] tr))
        as (Hl & Hp & Hf & Ht); [reflexivity|exact ND'| |].
      { intros g Hg. simpl. apply Fresh. now right. }
      simpl. rewrite Hwf, Hmf, Hrec. simpl in *.
      rewrite Hl, Hp, Hf, Ht.
      rewrite <- Nat.iter_succ_r. tauto.
Qed.

(** A well-formed file that is not on the ledger gets its records
    inserted, wherever the walk meets it. *)
Lemma processFiles_inserts env files f records :
  forall c w,
    reliable w ->
    In f files ->
    ledger_has f (processed_files w) = false ->
    parseOpened (Open env f) = Ok records ->
    exists l1 l2,
      locations (snd (processFiles env files (c, w)))
      = locations w ++ l1 ++ records ++ l2.
Proof.
  induction files as [|g rest IH]; intros c w R Hin L E; simpl in *; [tauto|].
  destruct (processFile_reliable env g c w R) as [tr Hg]. rewrite Hg.
  destruct (String.eqb_spec g f) as [->|Hne].
  - rewrite L, E.
    destruct (processFiles_shape env rest (count_file records c)
                (mkWorld (locations w ++ records)
                   (processed_files w ++ [(f, GoInt.len records)]) [] tr))
      as (c' & ins & led & fl & evs & -> & _).
    simpl. exists [], ins. now rewrite <- app_assoc.
  - destruct Hin as [Heq|Hin]; [contradiction|].
    destruct (ledger_has g (processed_files w)).
    + destruct (IH c (mkWorld (locations w) (processed_files w) [] tr))
        as (l1 & l2 & ->); auto; [reflexivity|]. simpl. eauto.
    + destruct (parseOpened (Open env g)) as [recs_g|e].
      * destruct (IH (count_file recs_g c)
                    (mkWorld (locations w ++ recs_g)
                       (processed_files w ++ [(g, GoInt.len recs_g)]) [] tr))
          as (l1 & l2 & ->); auto; [reflexivity| |].
        { simpl. rewrite ledger_has_app, ledger_has_one, L. simpl.
          now apply String.eqb_neq. }
        simpl. exists (recs_g ++ l1), l2. now rewrite <- !app_assoc.
      * destruct (IH (fail_file c)
                    (mkWorld (locations w) (processed_files w) [] tr))
          as (l1 & l2 & ->); auto; [reflexivity|]. simpl. eauto.
Qed.

(** ** The importer: [main] *)

Lemma main_directory env directory w files :
  starts env -> directory <> "" ->
  hd None (faults w) = None -> hd None (tl (faults w)) = None ->
  discovers env directory files ->
  main env "" directory w
  = let st := processFiles env files
                (mkCounters 0 0 0, after_setup directory files w) in
    (0,
     print (msg_directory_import_completed (processedFiles (fst st))
              (failedFiles (fst st)) (totalRecords (fst st))) (snd st)).
Proof.
  intros (src & Hcfg & Hconn) Hdir H1 H2 Hwalk.
  unfold main. simpl. apply String.eqb_neq in Hdir. rewrite Hdir. simpl.
  rewrite Hcfg, Hconn.
  unfold createTablesIfNotExists, roundtrip. simpl. rewrite H1. simpl.
  rewrite H2. simpl.
  unfold importDirectory, findCSVFiles. unfold discovers in Hwalk.
  rewrite Hwalk. unfold print, log. simpl. rewrite <- !app_assoc. simpl.
  unfold after_setup.
  destruct (processFiles env files _) as [c' w']. reflexivity.
Qed.

Lemma main_file env file w :
  starts env -> file <> "" ->
  hd None (faults w) = None -> hd None (tl (faults w)) = None ->
  main env file "" w
  = importFile env file
      (mkWorld (locations w) (processed_files w) (tl (tl (faults w)))
         (trace w ++ [EvExec CreateLocations; EvExec CreateProcessedFiles])).
Proof.
  intros (src & Hcfg & Hconn) Hfile H1 H2.
  unfold main. apply String.eqb_neq in Hfile. rewrite Hfile. simpl.
  rewrite Hcfg, Hconn.
  unfold createTablesIfNotExists, roundtrip. simpl. rewrite H1. simpl.
  rewrite H2. simpl. now rewrite <- !app_assoc.
Qed.

Ltac grows_explicit :=
  eapply grows_events;
  [ simpl; rewrite <- ?app_assoc; simpl; reflexivity
  | repeat constructor; simpl; auto ].

Lemma verifyImport_ok_iff (n : Z) (w : World) :
  fst (verifyImport n w) = None
  <-> hd None (faults w) = None
      /\ n <= GoInt.len (locations w)
      /\ hd None (tl (faults w)) = None
      /\ locations w <> [].
Proof.
  unfold verifyImport, roundtrip. simpl.
  destruct (hd None (faults w)) as [msg|]; simpl.
  { split; [discriminate|intros (H & _); discriminate]. }
  destruct (GoInt.len (locations w) <? n) eqn:E; simpl.
  { apply Z.ltb_lt in E. split; [discriminate|intros (_ & H & _); lia]. }
  apply Z.ltb_ge in E.
  destruct (hd None (tl (faults w))) as [msg|]; simpl.
  { split; [discriminate|intros (_ & _ & H & _); discriminate]. }
  destruct (locations w) as [|r rest]; simpl.
  - split; [discriminate|intros (_ & _ & _ & H); congruence].
  - split; [intros _; repeat split; [exact E|discriminate]|reflexivity].
Qed.

Lemma verifyImport_frame (n : Z) (w : World) :
  locations (snd (verifyImport n w)) = locations w
  /\ processed_files (snd (verifyImport n w)) = processed_files w
  /\ grows (fun ev => match ev with
                      | EvCountRows | EvSampleGeom | EvPrint _ => True
                      | _ => False
                      end) w (snd (verifyImport n w)).
Proof.
  unfold verifyImport, roundtrip, print, log. simpl.
  destruct (hd None (faults w)) as [msg|]; simpl.
  { repeat split. grows_explicit. }
  destruct (GoInt.len (locations w) <? n); simpl.
  { repeat split. grows_explicit. }
  destruct (hd None (tl (faults w))) as [msg|]; simpl.
  { repeat split. grows_explicit. }
  destruct (locations w) as [|r rest] eqn:L; simpl.
  - repeat split. grows_explicit.
  - repeat split. grows_explicit.
Qed.

(** What the single-file branch does to the store, by the way it goes. *)
Lemma importFile_parse_failed env file w e :
  parseOpened (Open env file) = Err e ->
  importFile env file w
  = (1, mkWorld (locations w) (processed_files w) (faults w)
          (trace w ++ [EvPrint (msg_starting_file file); EvOpen file;
                       EvPrint (msg_error_parsing_csv e)])).
Proof.
  intros E. unfold importFile, parseCSV, print, log. simpl. rewrite E. simpl.
  now rewrite <- !app_assoc.
Qed.

Lemma importFile_insert_failed env file w records msg :
  parseOpened (Open env file) = Ok records ->
  hd None (faults w) = Some msg ->
  importFile env file w
  = (1, mkWorld (locations w) (processed_files w) (tl (faults w))
          (trace w ++ [EvPrint (msg_starting_file file); EvOpen file;
                       EvPrint (msg_parsed (GoInt.len records));
                       EvCopyFrom records;
                       EvPrint (msg_error_inserting (errorString msg))])).
Proof.
  intros E H. unfold importFile, parseCSV, insertRecords, roundtrip, print, log.
  simpl. rewrite E. simpl. rewrite H. simpl. now rewrite <- !app_assoc.
Qed.

Lemma importFile_inserted env file w records :
  parseOpened (Open env file) = Ok records ->
  hd None (faults w) = None ->
  let inserted :=
    mkWorld (locations w ++ records) (processed_files w) (tl (faults w))
      (trace w ++ [EvPrint (msg_starting_file file); EvOpen file;
                   EvPrint (msg_parsed (GoInt.len records));
                   EvCopyFrom records]) in
  importFile env file w
  = match verifyImport (GoInt.len records) inserted with
    | (Some e, w') => (1, print (msg_error_verifying e) w')
    | (None, w') =>
        (0, print (msg_successfully_imported (GoInt.len records)) w')
    end.
Proof.
  intros E H. unfold importFile, parseCSV, insertRecords, roundtrip,
    set_locations, print, log.
  simpl. rewrite E. simpl. rewrite H. simpl. rewrite <- !app_assoc. simpl.
  destruct (verifyImport _ _) as [[e|] w']; reflexivity.
Qed.

Lemma importFile_frame env file w :
  processed_files (snd (importFile env file w)) = processed_files w
  /\ grows (file_event env file) w (snd (importFile env file w)).
Proof.
  destruct (parseOpened (Open env file)) as [records|e] eqn:E.
  2:{ rewrite (importFile_parse_failed env file w e E). simpl.
      split; [reflexivity|]. grows_explicit. }
  destruct (hd None (faults w)) as [msg|] eqn:H.
  { rewrite (importFile_insert_failed env file w records msg E H). simpl.
    split; [reflexivity|]. grows_explicit. }
  rewrite (importFile_inserted env file w records E H). cbv zeta.
  match goal with |- context [verifyImport ?n ?x] =>
    destruct (verifyImport_frame n x) as (_ & Hp & Hg);
    destruct (verifyImport n x) as [[e|] w'] end; simpl in *.
  - split; [exact Hp|].
    match type of Hg with grows _ ?mid _ =>
      apply (grows_trans _ w mid); [grows_explicit|];
      apply (grows_trans _ mid w');
      [eapply grows_impl; [|exact Hg]; intros [] Hev; simpl; tauto|]
    end.
    unfold print, log. grows_explicit.
  - split; [exact Hp|].
    match type of Hg with grows _ ?mid _ =>
      apply (grows_trans _ w mid); [grows_explicit|];
      apply (grows_trans _ mid w');
      [eapply grows_impl; [|exact Hg]; intros [] Hev; simpl; tauto|]
    end.
    unfold print, log. grows_explicit.
Qed.

Lemma importFile_locations env file w records :
  parseOpened (Open env file) = Ok records ->
  hd None (faults w) = None ->
  locations (snd (importFile env file w)) = locations w ++ records.
Proof.
  intros E H. rewrite (importFile_inserted env file w records E H). cbv zeta.
  match goal with |- context [verifyImport ?n ?x] =>
    destruct (verifyImport_frame n x) as (Hl & _ & _);
    destruct (verifyImport n x) as [[e|] w'] end; simpl in *; exact Hl.
Qed.

Lemma importFile_exit env file w records :
  parseOpened (Open env file) = Ok records ->
  hd None (faults w) = None ->
  fst (importFile env file w) = 0
  <-> hd None (tl (faults w)) = None
      /\ hd None (tl (tl (faults w))) = None
      /\ locations w ++ records <> [].
Proof.
  intros E H. rewrite (importFile_inserted env file w records E H). cbv zeta.
  match goal with |- context [verifyImport ?n ?x] =>
    pose proof (verifyImport_ok_iff n x) as Hv;
    destruct (verifyImport n x) as [[e|] w'] end; simpl in *.
  - split; [discriminate|]. intros (H1 & H2 & H3).
    assert (Hnone : Some e = None); [|discriminate].
    apply Hv. repeat split; try assumption. rewrite len_app.
    pose proof (len_nonneg (locations w)). lia.
  - split; [|reflexivity]. intros _.
    destruct (proj1 Hv eq_refl) as (H1 & _ & H2 & H3). tauto.
Qed.

Lemma importFile_reliable env file w :
  reliable w -> reliable (snd (importFile env file w)).
Proof.
  unfold reliable. intros R.
  unfold importFile, parseCSV, insertRecords, verifyImport, roundtrip,
    set_locations, print, log. simpl.
  destruct (parseOpened (Open env file)) as [records|e]; simpl; [|exact R].
  rewrite R. simpl.
  destruct (GoInt.len (locations w ++ records) <? GoInt.len records); simpl;
    [reflexivity|].
  destruct (locations w ++ records); reflexivity.
Qed.

Lemma createTablesIfNotExists_frame (w : World) :
  let w' := snd (createTablesIfNotExists w) in
  locations w' = locations w
  /\ processed_files w' = processed_files w
  /\ grows (fun ev => match ev with EvExec _ => True | _ => False end) w w'.
Proof.
  unfold createTablesIfNotExists, roundtrip. simpl.
  destruct (hd None (faults w)); simpl; repeat split; grows_explicit.
Qed.

Lemma importDirectory_frame env directory w :
  grows (directory_event env (fst (walkFunc (Walk env directory) []))) w
    (snd (importDirectory env directory w)).
Proof.
  unfold importDirectory, findCSVFiles, print, log. simpl.
  destruct (walkFunc (Walk env directory) []) as [files [e|]]; simpl.
  { grows_explicit. }
  match goal with |- context [processFiles env files (?c, ?x)] =>
    destruct (processFiles_shape env files c x)
      as (c' & ins & led & fl & evs & -> & F);
    apply (grows_trans _ w x); [grows_explicit|]
  end.
  eapply grows_events.
  - simpl. rewrite <- app_assoc. reflexivity.
  - apply Forall_app. split; [apply F, incl_refl|repeat constructor].
Qed.

(** A run given [--file] alone never touches the ledger table, and logs
    only the events of a single-file import. *)
Lemma main_file_frame env file w :
  processed_files (snd (main env file "" w)) = processed_files w
  /\ grows (file_event env file) w (snd (main env file "" w)).
Proof.
  unfold main. destruct (file =? "")%string; simpl.
  { split; [reflexivity|]. unfold print, log. grows_explicit. }
  destruct (LoadConfig env) as [msg|src].
  { split; [reflexivity|]. unfold print, log. grows_explicit. }
  destruct (Connect env src) as [msg|].
  { split; [reflexivity|]. unfold print, log. grows_explicit. }
  destruct (createTablesIfNotExists_frame w) as (_ & Hp & Hg).
  destruct (createTablesIfNotExists w) as [[e|] w1]; simpl in *.
  - split; [exact Hp|]. apply (grows_trans _ w w1).
    + eapply grows_impl; [|exact Hg]. intros [] Hev; simpl; tauto.
    + unfold print, log. grows_explicit.
  - destruct (importFile_frame env file w1) as [Hp2 Hg2]. split.
    + now rewrite Hp2.
    + apply (grows_trans _ w w1); [|exact Hg2].
      eapply grows_impl; [|exact Hg]. intros [] Hev; simpl; tauto.
Qed.

(** Whatever the flags, a bulk insert of a run carries a parsed file. *)
Lemma main_copy_ok env file directory w :
  grows (copy_ok env) w (snd (main env file directory w)).
Proof.
  unfold main.
  destruct ((file =? "")%string && (directory =? "")%string).
  { unfold print, log. grows_explicit. }
  destruct (negb (file =? "")%string && negb (directory =? "")%string).
  { unfold print, log. grows_explicit. }
  destruct (LoadConfig env) as [msg|src].
  { unfold print, log. grows_explicit. }
  destruct (Connect env src) as [msg|].
  { unfold print, log. grows_explicit. }
  destruct (createTablesIfNotExists_frame w) as (_ & _ & Hg).
  destruct (createTablesIfNotExists w) as [[e|] w1]; simpl in *.
  - apply (grows_trans _ w w1).
    + eapply grows_impl; [|exact Hg]. intros [] Hev; simpl; tauto.
    + unfold print, log. grows_explicit.
  - apply (grows_trans _ w w1).
    { eapply grows_impl; [|exact Hg]. intros [] Hev; simpl; tauto. }
    destruct (negb (file =? "")%string).
    + eapply grows_impl; [|apply (importFile_frame env file w1)].
      intros [] Hev; simpl in *; eauto; tauto.
    + eapply grows_impl; [|apply (importDirectory_frame env directory w1)].
      intros [] Hev; simpl in *; try tauto.
      destruct Hev as (f & _ & Hf). eauto.
Qed.

(** The reader is used up, or stops at an error whose message is the one
    of [io.EOF]. *)
Lemma readRecords_exact reader :
  forall acc records,
    readRecords reader acc = Ok records ->
    exists rows tail new,
      reader = map ReadRecord rows ++ tail
      /\ (tail = [] \/ exists rest, tail = ReadError "EOF" :: rest)
      /\ records = acc ++ new
      /\ Forall2 row_parses rows new.
Proof.
  induction reader as [|[row|msg] rest IH]; intros acc records H; simpl in H.
  - inversion H; subst. exists [], [], [].
    split; [reflexivity|]. split; [now left|].
    split; [now rewrite app_nil_r|constructor].
  - destruct (GoInt.len row <? 11) eqn:Hlen; [discriminate|].
    destruct (strconv.ParseFloat (nth 9 row "")) as [lat|] eqn:Hlat;
      [|discriminate].
    destruct (strconv.ParseFloat (nth 10 row "")) as [lon|] eqn:Hlon;
      [|discriminate].
    apply IH in H. destruct H as (rows & tail & new & -> & Ht & -> & F).
    exists (row :: rows), tail. eexists (_ :: new). rewrite <- app_assoc.
    split; [reflexivity|]. split; [exact Ht|]. split; [reflexivity|].
    constructor; [|exact F].
    apply Z.ltb_ge in Hlen. unfold row_parses. simpl. tauto.
  - destruct (msg =? "EOF")%string eqn:Hmsg; [|discriminate].
    apply String.eqb_eq in Hmsg. subst msg.
    inversion H; subst. exists [], (ReadError "EOF" :: rest), [].
    split; [reflexivity|]. split; [right; eauto|].
    split; [now rewrite app_nil_r|constructor].
Qed.

Lemma parseOpened_exact opened records :
  parseOpened opened = Ok records ->
  exists header rows tail,
    opened = inr (ReadRecord header :: map ReadRecord rows ++ tail)
    /\ (tail = [] \/ exists rest, tail = ReadError "EOF" :: rest)
    /\ Forall2 row_parses rows records.
Proof.
  unfold parseOpened. destruct opened as [msg|[|[header|msg] reader]];
    try discriminate.
  intros H. apply readRecords_exact in H.
  destruct H as (rows & tail & new & -> & Ht & -> & F).
  exists header, rows, tail. repeat split; assumption.
Qed.

(** ** The ingestion coordinator *)

Lemma isFileProcessed_answer f w b :
  fst (isFileProcessed f w) = (b, None)
  <-> hd None (faults w) = None /\ ledger_has f (processed_files w) = b.
Proof.
  unfold isFileProcessed, roundtrip. simpl.
  destruct (hd None (faults w)) as [msg|]; simpl.
  - split; [discriminate|intros [H _]; discriminate].
  - split; [intros H; inversion H; tauto|intros [_ ->]; reflexivity].
Qed.

(** C6.  In the directory loop, when the ledger query answers "not
    processed", the file parses, the bulk insert succeeds and the write of
    the ledger entry then fails, the file is not counted as failed: the
    failed-file counter keeps its value, the processed-file counter is
    incremented and the record count of the file is added to the running
    total; the rows are in the store, the ledger is as it was, and the
    failure shows as one printed message. *)
Theorem C6_ledger_failure_is_only_a_warning env f c w records msg :
  fst (isFileProcessed f (print (msg_processing_file f) w)) = (false, None) ->
  parseOpened (Open env f) = Ok records ->
  hd None (tl (faults w)) = None ->
  hd None (tl (tl (faults w))) = Some msg ->
  let st := processFile env f (c, w) in
  failedFiles (fst st) = failedFiles c
  /\ processedFiles (fst st) = GoInt.incr (processedFiles c)
  /\ totalRecords (fst st) = GoInt.add (totalRecords c) (GoInt.len records)
  /\ locations (snd st) = locations w ++ records
  /\ processed_files (snd st) = processed_files w
  /\ added w (snd st)
     = [EvPrint (msg_processing_file f); EvIsFileProcessed f; EvOpen f;
        EvPrint (msg_parsed_from (GoInt.len records) f); EvCopyFrom records;
        EvMarkFileProcessed f (GoInt.len records);
        EvPrint (msg_error_marking_processed (errorString msg));
        EvPrint (msg_successfully_processed f (GoInt.len records))].
Proof.
  intros Hq E I M st. apply isFileProcessed_answer in Hq as [H L].
  simpl in H, L. unfold st.
  rewrite (processFile_mark_failed env f c w records msg H L E I M). simpl.
  rewrite added_app. repeat split.
Qed.

Lemma C6_witness :
  let w := mkWorld [] [] [None; None; Some "connection reset"] [] in
  let st := processFile Sample.env "data/a.csv" (mkCounters 0 0 0, w) in
  fst st = mkCounters 1 1 0
  /\ locations (snd st) = [Sample.marunouchi_record]
  /\ processed_files (snd st) = [].
Proof.
  intros w st.
  destruct (C6_ledger_failure_is_only_a_warning Sample.env "data/a.csv"
              (mkCounters 0 0 0) w [Sample.marunouchi_record]
              "connection reset")
    as (Hf & Hp & Ht & Hl & Hled & _);
    try (vm_compute; reflexivity).
  fold st in Hf, Hp, Ht, Hl, Hled.
  split; [|split; [exact Hl|exact Hled]].
  destruct (fst st) as [t p fl]. simpl in *. subst. reflexivity.
Defined.

(** C1.  A file for which [isFileProcessed] answers true is skipped: the
    counters, the rows and the ledger stay as they are, and the run logs
    the ledger query and the skip, with no file opened and no bulk insert.
    Hence, with a store that answers every round trip, a second directory
    run over the same files leaves the rows of the first run as they are
    and reports zero processed files and zero records; when the ledger
    knew none of the files before the first run, the rows added by the two
    runs together are the records of each file once. *)
Theorem C1_directory_import_is_idempotent :
  (forall env f c w,
     fst (isFileProcessed f (print (msg_processing_file f) w)) = (true, None) ->
     let st := processFile env f (c, w) in
     fst st = c
     /\ locations (snd st) = locations w
     /\ processed_files (snd st) = processed_files w
     /\ added w (snd st)
        = [EvPrint (msg_processing_file f); EvIsFileProcessed f;
           EvPrint (msg_skipping f)])
  /\ (forall env directory files w,
        starts env -> directory <> "" -> reliable w ->
        discovers env directory files ->
        let run1 := main env "" directory w in
        let run2 := main env "" directory (snd run1) in
        fst run1 = 0 /\ fst run2 = 0
        /\ locations (snd run2) = locations (snd run1)
        /\ processed_files (snd run2) = processed_files (snd run1)
        /\ (exists failed,
              last (trace (snd run2)) (EvPrint msg_flag_required)
              = EvPrint (msg_directory_import_completed 0 failed 0))
        /\ (NoDup files ->
            (forall f, In f files -> ledger_has f (processed_files w) = false) ->
            locations (snd run2)
            = locations w ++ flat_map (file_records env) files)).
Proof.
  split.
  { intros env f c w Hq st. apply isFileProcessed_answer in Hq as [H L].
    simpl in H, L. unfold st.
    rewrite (processFile_skipped env f c w H L). simpl.
    rewrite added_app. repeat split. }
  intros env directory files w Hs Hd R Hw run1 run2.
  destruct (reliable_answers w R) as (H1 & H2 & _ & _ & T2 & _).
  assert (E1 : run1 = main env "" directory w) by reflexivity.
  rewrite (main_directory env directory w files Hs Hd H1 H2 Hw) in E1.
  cbv zeta in E1.
  set (w0 := after_setup directory files w) in *.
  assert (R0 : reliable w0) by (unfold reliable, w0; simpl; exact T2).
  set (st1 := processFiles env files (mkCounters 0 0 0, w0)) in *.
  assert (R1 : reliable (snd run1)).
  { rewrite E1. simpl. apply (processFiles_reliable env files _ w0 R0). }
  assert (L1 : locations (snd run1) = locations (snd st1))
    by (rewrite E1; reflexivity).
  assert (P1 : processed_files (snd run1) = processed_files (snd st1))
    by (rewrite E1; reflexivity).
  destruct (reliable_answers (snd run1) R1) as (H1' & H2' & _ & _ & T2' & _).
  assert (E2 : run2 = main env "" directory (snd run1)) by reflexivity.
  rewrite (main_directory env directory (snd run1) files Hs Hd H1' H2' Hw) in E2.
  cbv zeta in E2.
  set (w0' := after_setup directory files (snd run1)) in *.
  assert (R0' : reliable w0') by (unfold reliable, w0'; simpl; exact T2').
  destruct (processFiles_settled env files (mkCounters 0 0 0) w0' R0')
    as (Hl & Hp & Ht & Hn).
  { intros f Hf. unfold w0'. simpl. rewrite P1.
    apply (processFiles_settles env files _ w0 R0 f Hf). }
  set (st2 := processFiles env files (mkCounters 0 0 0, w0')) in *.
  simpl in Ht, Hn.
  split; [rewrite E1; reflexivity|].
  split; [rewrite E2; reflexivity|].
  split; [rewrite E2; simpl; exact Hl|].
  split; [rewrite E2; simpl; exact Hp|].
  split.
  { exists (failedFiles (fst st2)). rewrite E2. unfold print, log. simpl.
    rewrite last_last, Ht, Hn. reflexivity. }
  intros ND Fresh. rewrite E2. simpl. rewrite Hl. unfold w0'. simpl.
  rewrite L1.
  destruct (processFiles_fresh env files (mkCounters 0 0 0) w0 R0 ND Fresh)
    as (Hloc & _). exact Hloc.
Qed.

Lemma C1_witness :
  let run1 := main Sample.env "" "data" Sample.empty in
  let run2 := main Sample.env "" "data" (snd run1) in
  locations (snd run2) = [Sample.marunouchi_record; Sample.akasaka_record]
  /\ locations (snd run2) = locations (snd run1)
  /\ last (trace (snd run2)) (EvPrint msg_flag_required)
     = EvPrint (msg_directory_import_completed 0 1 0)
  /\ fst (processFile Sample.env "data/a.csv" (mkCounters 7 5 3, snd run1))
     = mkCounters 7 5 3.
Proof.
  intros run1 run2.
  destruct C1_directory_import_is_idempotent as [Hskip Htwice].
  destruct (Htwice Sample.env "data" ["data/a.csv"; "data/b.csv"; "data/c.csv"]
              Sample.empty)
    as (_ & _ & Hsame & _ & _ & Honce).
  - exists "postgres://localhost/geocoding". split; reflexivity.
  - discriminate.
  - reflexivity.
  - vm_compute. reflexivity.
  - fold run1 in Hsame, Honce. fold run2 in Hsame, Honce.
    split; [|split; [exact Hsame|split]].
    + rewrite Honce; [vm_compute; reflexivity| |].
      * repeat constructor; simpl; intuition discriminate.
      * intros f _. reflexivity.
    + vm_compute. reflexivity.
    + apply (Hskip Sample.env "data/a.csv" (mkCounters 7 5 3) (snd run1)).
      vm_compute. reflexivity.
Defined.

(** C2.  In the directory loop, a file that is not on the ledger and whose
    parse fails, or whose bulk insert fails, increments the failed-file
    counter and nothing else: no row, no ledger entry, and the loop goes
    on with the next file.  Once the setup is done and the walk has
    gathered the files, the run ends with exit code 0, whatever the store
    answers while the files are processed.  With a store that answers
    every round trip and a ledger that knows none of them, a directory of
    one malformed and two well-formed files ends with 2 files processed, 1
    failed, and the records of the two well-formed files in the store. *)
Theorem C2_failures_stay_with_their_file :
  (forall env f c w,
     fst (isFileProcessed f (print (msg_processing_file f) w)) = (false, None) ->
     (exists e, parseOpened (Open env f) = Err e)
     \/ (exists records msg,
           parseOpened (Open env f) = Ok records
           /\ hd None (tl (faults w)) = Some msg) ->
     let st := processFile env f (c, w) in
     failedFiles (fst st) = GoInt.incr (failedFiles c)
     /\ processedFiles (fst st) = processedFiles c
     /\ totalRecords (fst st) = totalRecords c
     /\ locations (snd st) = locations w
     /\ processed_files (snd st) = processed_files w
     /\ Forall (fun ev => is_ledger_write ev = false) (added w (snd st))
     /\ forall rest,
          processFiles env (f :: rest) (c, w) = processFiles env rest st)
  /\ (forall env directory files w,
        starts env -> directory <> "" ->
        hd None (faults w) = None -> hd None (tl (faults w)) = None ->
        discovers env directory files ->
        fst (main env "" directory w) = 0)
  /\ (forall env directory files w,
        starts env -> directory <> "" -> reliable w ->
        discovers env directory files ->
        NoDup files ->
        (forall f, In f files -> ledger_has f (processed_files w) = false) ->
        List.length (filter (malformed env) files) = 1%nat ->
        List.length (filter (well_formed env) files) = 2%nat ->
        let run := main env "" directory w in
        fst run = 0
        /\ (exists total,
              last (trace (snd run)) (EvPrint msg_flag_required)
              = EvPrint (msg_directory_import_completed 2 1 total))
        /\ locations (snd run)
           = locations w ++ flat_map (file_records env)
                              (filter (well_formed env) files)).
Proof.
  split; [|split].
  - intros env f c w Hq Hfail st. apply isFileProcessed_answer in Hq as [H L].
    simpl in H, L. unfold st.
    assert (Hnext : forall rest,
               processFiles env (f :: rest) (c, w)
               = processFiles env rest (processFile env f (c, w)))
      by reflexivity.
    revert Hnext.
    destruct Hfail as [[e E]|(records & msg & E & I)].
    + rewrite (processFile_parse_failed env f c w e H L E). simpl.
      rewrite added_app. intros Hnext.
      repeat split; try exact Hnext; repeat constructor.
    + rewrite (processFile_insert_failed env f c w records msg H L E I). simpl.
      rewrite added_app. intros Hnext.
      repeat split; try exact Hnext; repeat constructor.
  - intros env directory files w Hs Hd H1 H2 Hw.
    now rewrite (main_directory env directory w files Hs Hd H1 H2 Hw).
  - intros env directory files w Hs Hd R Hw ND Fresh Hmal Hwf run.
    destruct (reliable_answers w R) as (H1 & H2 & _ & _ & T2 & _).
    unfold run. rewrite (main_directory env directory w files Hs Hd H1 H2 Hw).
    cbv zeta.
    set (w0 := after_setup directory files w).
    assert (R0 : reliable w0) by (unfold reliable, w0; simpl; exact T2).
    destruct (processFiles_fresh env files (mkCounters 0 0 0) w0 R0 ND Fresh)
      as (Hloc & Hp & Hf & _).
    rewrite Hmal in Hf. rewrite Hwf in Hp. simpl in Hp, Hf.
    split; [reflexivity|]. split.
    + eexists. unfold print, log. simpl. rewrite last_last, Hp, Hf.
      reflexivity.
    + simpl. rewrite Hloc. simpl. f_equal.
      clear. induction files as [|f rest IH]; simpl; [reflexivity|].
      unfold file_records at 1. unfold well_formed at 1.
      destruct (parseOpened (Open env f)) as [records|e] eqn:E; simpl.
      * unfold file_records at 2. rewrite E, IH. reflexivity.
      * exact IH.
Qed.

Lemma C2_witness :
  let run := main Sample.env "" "data" Sample.empty in
  fst run = 0
  /\ last (trace (snd run)) (EvPrint msg_flag_required)
     = EvPrint (msg_directory_import_completed 2 1 2)
  /\ locations (snd run) = [Sample.marunouchi_record; Sample.akasaka_record]
  /\ fst (processFile Sample.env "data/b.csv" (mkCounters 1 1 0, Sample.empty))
     = mkCounters 1 1 1
  /\ fst (main Sample.env "" "data"
            (mkWorld [] [] [None; None; Some "a"; None; Some "b"; Some "c"] []))
     = 0.
Proof.
  intros run.
  destruct C2_failures_stay_with_their_file as (Hstep & Hexit & Hrun).
  assert (Hs : starts Sample.env)
    by (exists "postgres://localhost/geocoding"; split; reflexivity).
  destruct (Hrun Sample.env "data" ["data/a.csv"; "data/b.csv"; "data/c.csv"]
              Sample.empty)
    as (Hcode & _ & Hloc);
    try reflexivity; try discriminate; try assumption.
  { repeat constructor; simpl; intuition discriminate. }
  fold run in Hcode, Hloc.
  split; [exact Hcode|]. split; [vm_compute; reflexivity|].
  split; [rewrite Hloc; vm_compute; reflexivity|]. split.
  - destruct (Hstep Sample.env "data/b.csv" (mkCounters 1 1 0) Sample.empty)
      as (Hf & Hp & Ht & _).
    + vm_compute. reflexivity.
    + left. eexists. vm_compute. reflexivity.
    + destruct (fst (processFile Sample.env "data/b.csv"
                       (mkCounters 1 1 0, Sample.empty))) as [t p fl].
      simpl in *. subst. reflexivity.
  - apply (Hexit Sample.env "data" ["data/a.csv"; "data/b.csv"; "data/c.csv"]);
      try reflexivity; try discriminate; assumption.
Defined.

(** C3, as the code has it.  The importer checks no range and no
    finiteness.  Every list of records handed to a bulk insert, in either
    mode, is what [parseCSV] made of one whole file: after the header, the
    file holds as many rows as there are records, up to its end, and each
    record comes from its row, a row with at least 11 columns whose columns
    9 and 10 [ParseFloat] accepted, latitude and longitude being the values
    it returned.  So a file with a row that is short or whose column 9 or
    10 [ParseFloat] refuses reaches no bulk insert. *)
Theorem C3_inserted_records_are_parsed_rows env file directory w records :
  In (EvCopyFrom records) (added w (snd (main env file directory w))) ->
  exists filePath header rows tail,
    Open env filePath = inr (ReadRecord header :: map ReadRecord rows ++ tail)
    /\ (tail = [] \/ exists rest, tail = ReadError "EOF" :: rest)
    /\ Forall2 row_parses rows records.
Proof.
  intros Hin.
  pose proof (grows_added _ _ _ (main_copy_ok env file directory w)) as F.
  rewrite Forall_forall in F. specialize (F _ Hin). simpl in F.
  destruct F as (filePath & E).
  destruct (parseOpened_exact _ _ E) as (header & rows & tail & Ho & Ht & Hrows).
  exists filePath, header, rows, tail. repeat split; assumption.
Qed.

Lemma C3_witness :
  exists filePath header rows tail,
    Open Sample.env filePath
    = inr (ReadRecord header :: map ReadRecord rows ++ tail)
    /\ (tail = [] \/ exists rest, tail = ReadError "EOF" :: rest)
    /\ Forall2 row_parses rows [Sample.akasaka_record].
Proof.
  apply (C3_inserted_records_are_parsed_rows Sample.env "" "data" Sample.empty).
  vm_compute. tauto.
Defined.

(** The file [data/far.csv] holds one row with latitude 95 and longitude
    200; a directory run hands its record to the bulk insert and the row is
    in the store afterwards. *)
Lemma C3_out_of_range_record_reaches_the_store :
  let w := snd (main Sample.env "" "far" Sample.empty) in
  In (EvCopyFrom [Sample.far_away_record]) (trace w)
  /\ In Sample.far_away_record (locations w)
  /\ lat_in_range (Lat Sample.far_away_record) = false
  /\ lon_in_range (Lon Sample.far_away_record) = false.
Proof. vm_compute. tauto. Qed.

(** C8, as the code has it.  A run given [--file] alone sends no query to
    the ledger; once the setup is done it parses the file and, when the
    file parses and the store takes the bulk insert, the records are added
    to the store whether or not the ledger knows the file.  The
    verification that follows succeeds exactly when the count query is
    answered, the count is at least the expected number, the probe for one
    stored row is answered, and the table is not empty; in the run the
    count is at least the number of records just inserted, so the exit code
    is 0 exactly when both queries are answered and the table is not
    empty. *)
Theorem C8_single_file_mode env file w :
  Forall (fun ev => is_ledger_query ev = false)
    (added w (snd (main env file "" w)))
  /\ (forall records,
        starts env -> file <> "" ->
        hd None (faults w) = None -> hd None (tl (faults w)) = None ->
        parseOpened (Open env file) = Ok records ->
        hd None (tl (tl (faults w))) = None ->
        locations (snd (main env file "" w)) = locations w ++ records
        /\ (fst (main env file "" w) = 0
            <-> hd None (tl (tl (tl (faults w)))) = None
                /\ hd None (tl (tl (tl (tl (faults w))))) = None
                /\ locations w ++ records <> []))
  /\ (forall expectedCount store,
        fst (verifyImport expectedCount store) = None
        <-> hd None (faults store) = None
            /\ expectedCount <= GoInt.len (locations store)
            /\ hd None (tl (faults store)) = None
            /\ locations store <> []).
Proof.
  split; [|split].
  - destruct (main_file_frame env file w) as [_ Hg].
    apply grows_added. eapply grows_impl; [|exact Hg].
    intros [] Hev; simpl in *; tauto.
  - intros records Hs Hf H1 H2 E H3.
    rewrite (main_file env file w Hs Hf H1 H2).
    set (w0 := mkWorld (locations w) (processed_files w) (tl (tl (faults w)))
                 (trace w ++ [EvExec CreateLocations; EvExec CreateProcessedFiles])).
    split.
    + exact (importFile_locations env file w0 records E H3).
    + exact (importFile_exit env file w0 records E H3).
  - exact verifyImport_ok_iff.
Qed.

Lemma C8_witness :
  let ledgered := mkWorld [] [("data/a.csv", 1)] [] [] in
  locations (snd (main Sample.env "data/a.csv" "" ledgered))
  = [Sample.marunouchi_record]
  /\ fst (main Sample.env "data/a.csv" "" ledgered) = 0.
Proof.
  intros ledgered.
  destruct (C8_single_file_mode Sample.env "data/a.csv" ledgered)
    as (_ & Hrun & _).
  destruct (Hrun [Sample.marunouchi_record]) as [Hl Hx];
    try reflexivity; try discriminate.
  - exists "postgres://localhost/geocoding". split; reflexivity.
  - split; [exact Hl|]. apply Hx. repeat split. discriminate.
Defined.

(** The file [data/empty.csv] holds a header and no row.  On an empty
    store the run parses 0 records and inserts them; the store then counts
    0 rows, which is at least the 0 expected, and the verification fails
    all the same, the probe finding no row: exit code 1. *)
Lemma C8_verification_fails_on_an_empty_store :
  parseOpened (Open Sample.env "data/empty.csv") = Ok []
  /\ GoInt.len (@nil LocationRecord) <= GoInt.len (locations Sample.empty)
  /\ fst (verifyImport (GoInt.len (@nil LocationRecord)) Sample.empty)
     = Some (failed_to_check_geom (errorString "no rows in result set"))
  /\ fst (main Sample.env "data/empty.csv" "" Sample.empty) = 1.
Proof. repeat split; vm_compute; congruence. Qed.

(** C9.  A run given [--file] alone leaves the ledger table as it found
    it and sends it no write.  So after a successful single-file import of
    a file the ledger did not know, with a store that answers every round
    trip: a second single-file run inserts the records of the file again,
    and a directory run whose walk meets the file inserts them again as
    well; the store then holds them twice. *)
Theorem C9_single_file_leaves_no_ledger_entry :
  (forall env file w,
     processed_files (snd (main env file "" w)) = processed_files w
     /\ Forall (fun ev => is_ledger_write ev = false)
          (added w (snd (main env file "" w))))
  /\ (forall env file w records,
        starts env -> file <> "" -> reliable w ->
        parseOpened (Open env file) = Ok records ->
        fst (main env file "" w) = 0 ->
        ledger_has file (processed_files w) = false ->
        let w1 := snd (main env file "" w) in
        ledger_has file (processed_files w1) = false
        /\ locations w1 = locations w ++ records
        /\ locations (snd (main env file "" w1))
           = locations w ++ records ++ records
        /\ (forall directory files,
              directory <> "" -> discovers env directory files ->
              In file files ->
              exists l1 l2,
                locations (snd (main env "" directory w1))
                = locations w ++ records ++ l1 ++ records ++ l2)).
Proof.
  split.
  - intros env file w. destruct (main_file_frame env file w) as [Hp Hg].
    split; [exact Hp|]. apply grows_added. eapply grows_impl; [|exact Hg].
    intros [] Hev; simpl in *; tauto.
  - intros env file w records Hs Hf R E Hexit L w1.
    destruct (reliable_answers w R) as (H1 & H2 & _ & _ & T2 & _).
    assert (E1 : w1 = snd (main env file "" w)) by reflexivity.
    rewrite (main_file env file w Hs Hf H1 H2) in E1.
    set (w0 := mkWorld (locations w) (processed_files w) (tl (tl (faults w)))
                 (trace w ++ [EvExec CreateLocations; EvExec CreateProcessedFiles]))
      in *.
    assert (R0 : reliable w0) by (unfold reliable, w0; simpl; exact T2).
    assert (R1 : reliable w1) by (rewrite E1; now apply importFile_reliable).
    assert (L1 : locations w1 = locations w ++ records).
    { rewrite E1. apply (importFile_locations env file w0 records E).
      now rewrite R0. }
    assert (P1 : processed_files w1 = processed_files w).
    { rewrite E1. apply (importFile_frame env file w0). }
    destruct (reliable_answers w1 R1) as (H1' & H2' & _ & _ & T2' & _).
    split; [now rewrite P1|]. split; [exact L1|]. split.
    + rewrite (main_file env file w1 Hs Hf H1' H2').
      rewrite (importFile_locations env file _ records E).
      * simpl. now rewrite L1, <- app_assoc.
      * simpl. now rewrite T2'.
    + intros directory files Hd Hw Hin.
      rewrite (main_directory env directory w1 files Hs Hd H1' H2' Hw).
      cbv zeta. simpl.
      destruct (processFiles_inserts env files file records (mkCounters 0 0 0)
                  (after_setup directory files w1))
        as (l1 & l2 & ->); try assumption.
      * simpl. now rewrite P1.
      * simpl. rewrite L1, <- app_assoc. eauto.
Qed.

Lemma C9_witness :
  let w1 := snd (main Sample.env "data/a.csv" "" Sample.empty) in
  processed_files w1 = []
  /\ locations (snd (main Sample.env "data/a.csv" "" w1))
     = [Sample.marunouchi_record; Sample.marunouchi_record]
  /\ exists l1 l2,
       locations (snd (main Sample.env "" "data" w1))
       = [] ++ [Sample.marunouchi_record] ++ l1
         ++ [Sample.marunouchi_record] ++ l2.
Proof.
  intros w1.
  destruct C9_single_file_leaves_no_ledger_entry as [Hframe Hagain].
  split; [apply (Hframe Sample.env "data/a.csv" Sample.empty)|].
  destruct (Hagain Sample.env "data/a.csv" Sample.empty
              [Sample.marunouchi_record])
    as (_ & _ & Hfile & Hdir);
    try reflexivity; try discriminate.
  - exists "postgres://localhost/geocoding". split; reflexivity.
  - split; [exact Hfile|].
    apply (Hdir "data" ["data/a.csv"; "data/b.csv"; "data/c.csv"]).
    + discriminate.
    + vm_compute. reflexivity.
    + now left.
Defined.

(** * Further properties *)

(** ** Discovery of the files *)

Lemma Ext_suffix (path : string) :
  exists stem, path = (stem ++ filepath.Ext path)%string.
Proof.
  induction path as [|c r [stem IH]]; simpl.
  - exists "". reflexivity.
  - destruct (filepath.Ext r) as [|e0 e] eqn:E.
    + destruct (filepath.has_separator r).
      * exists (String c r). simpl. f_equal.
        clear. induction r; simpl; congruence.
      * destruct (c =? ".")%char.
        -- exists "". reflexivity.
        -- exists (String c r). simpl. f_equal.
           clear. induction r; simpl; congruence.
    + exists (String c stem). simpl. now rewrite <- IH.
Qed.

Lemma Ext_of_csv (stem : string) :
  filepath.Ext (stem ++ ".csv") = ".csv".
Proof.
  induction stem as [|c r IH]; [reflexivity|].
  simpl. now rewrite IH.
Qed.

Lemma walkFunc_no_error (visits : list WalkVisit) :
  (forall v, In v visits -> exists isDir, visit_info v = inr isDir) ->
  forall files,
    walkFunc visits files
    = (files ++ map visit_path (filter is_csv_file visits), None).
Proof.
  induction visits as [|v rest IH]; intros Hok files; simpl.
  - now rewrite app_nil_r.
  - destruct (Hok v (or_introl eq_refl)) as [isDir Hv].
    unfold is_csv_file at 1. rewrite Hv.
    assert (Hrest : forall v', In v' rest -> exists d, visit_info v' = inr d)
      by (intros v' Hv'; apply Hok; now right).
    destruct isDir; simpl.
    + now apply IH.
    + destruct (filepath.Ext (visit_path v) =? ".csv")%string; simpl.
      * rewrite (IH Hrest). now rewrite <- app_assoc.
      * now apply IH.
Qed.

Lemma walkFunc_error (visits : list WalkVisit) (v : WalkVisit) (msg : string) :
  In v visits -> visit_info v = inl msg ->
  forall files, exists files' e, walkFunc visits files = (files', Some e).
Proof.
  induction visits as [|v0 rest IH]; intros Hin Hv files; simpl in *; [tauto|].
  destruct (visit_info v0) as [msg0|isDir] eqn:E0; [eauto|].
  destruct Hin as [->|Hin]; [congruence|].
  destruct (negb isDir && (filepath.Ext (visit_path v0) =? ".csv")%string);
    now apply IH.
Qed.

(** X1.  When the walk meets no error, [findCSVFiles] returns, in the
    order of the walk, the paths of the visits that are not directories and
    whose path ends in [.csv] (the suffix alone decides: the file named
    [.csv] counts, a directory named [x.csv] does not), and no error. *)
Theorem X1_findCSVFiles_keeps_the_csv_files env directory w :
  (forall v, In v (Walk env directory) -> exists isDir, visit_info v = inr isDir) ->
  exists files,
    fst (findCSVFiles env directory w) = (files, None)
    /\ files = map visit_path (filter is_csv_file (Walk env directory))
    /\ forall f,
         In f files
         <-> exists v stem,
               In v (Walk env directory) /\ visit_path v = f
               /\ visit_info v = inr false /\ f = (stem ++ ".csv")%string.
Proof.
  intros Hok. unfold findCSVFiles. simpl.
  rewrite (walkFunc_no_error _ Hok []). simpl.
  eexists. split; [reflexivity|]. split; [reflexivity|].
  intros f. rewrite in_map_iff. split.
  - intros (v & Hp & Hv). apply filter_In in Hv as [Hin Hcsv].
    unfold is_csv_file in Hcsv.
    destruct (visit_info v) as [msg|[|]] eqn:E; try discriminate.
    apply String.eqb_eq in Hcsv.
    destruct (Ext_suffix (visit_path v)) as [stem Hs]. rewrite Hcsv in Hs.
    exists v, stem. subst f. auto.
  - intros (v & stem & Hin & Hp & Hi & Hs). exists v. split; [exact Hp|].
    apply filter_In. split; [exact Hin|].
    unfold is_csv_file. rewrite Hi, Hp, Hs, Ext_of_csv. reflexivity.
Qed.

Lemma X1_witness :
  exists files,
    fst (findCSVFiles Sample.env "data" Sample.empty) = (files, None)
    /\ files = ["data/a.csv"; "data/b.csv"; "data/c.csv"]
    /\ forall f,
         In f files
         <-> exists v stem,
               In v (Walk Sample.env "data") /\ visit_path v = f
               /\ visit_info v = inr false /\ f = (stem ++ ".csv")%string.
Proof.
  destruct (X1_findCSVFiles_keeps_the_csv_files Sample.env "data" Sample.empty)
    as (files & H1 & H2 & H3).
  - intros v Hv. simpl in Hv.
    repeat (destruct Hv as [<-|Hv]; [eexists; reflexivity|]). contradiction.
  - exists files. split; [exact H1|]. split; [|exact H3].
    rewrite H2. reflexivity.
Defined.

Lemma main_directory_walk_failed env directory w files e :
  starts env -> directory <> "" ->
  hd None (faults w) = None -> hd None (tl (faults w)) = None ->
  walkFunc (Walk env directory) [] = (files, Some e) ->
  main env "" directory w
  = (1,
     mkWorld (locations w) (processed_files w) (tl (tl (faults w)))
       (trace w ++
        [EvExec CreateLocations; EvExec CreateProcessedFiles;
         EvPrint (msg_starting_directory directory); EvWalk directory;
         EvPrint (msg_error_finding_csv_files e)])).
Proof.
  intros (src & Hcfg & Hconn) Hdir H1 H2 Hwalk.
  unfold main. simpl. apply String.eqb_neq in Hdir. rewrite Hdir. simpl.
  rewrite Hcfg, Hconn.
  unfold createTablesIfNotExists, roundtrip. simpl. rewrite H1. simpl.
  rewrite H2. simpl.
  unfold importDirectory, findCSVFiles. rewrite Hwalk.
  unfold print, log. simpl. now rewrite <- !app_assoc.
Qed.

(** X2.  When the walk of the directory meets an error, also after it has
    met CSV files, the directory run stops with exit code 1 before the
    loop: no file is opened, the ledger is neither read nor written, no row
    is inserted, and the two tables are as they were. *)
Theorem X2_walk_error_stops_the_run env directory w v msg :
  starts env -> directory <> "" ->
  hd None (faults w) = None -> hd None (tl (faults w)) = None ->
  In v (Walk env directory) -> visit_info v = inl msg ->
  let run := main env "" directory w in
  fst run = 1
  /\ locations (snd run) = locations w
  /\ processed_files (snd run) = processed_files w
  /\ Forall (fun ev => touches_data ev = false) (added w (snd run)).
Proof.
  intros Hs Hd H1 H2 Hin Hv run.
  destruct (walkFunc_error _ v msg Hin Hv []) as (files & e & Hw).
  unfold run.
  rewrite (main_directory_walk_failed env directory w files e Hs Hd H1 H2 Hw).
  simpl. rewrite added_app. repeat split; repeat constructor.
Qed.

Lemma X2_witness :
  let run := main Sample.env "" "nowhere" Sample.empty in
  fst run = 1
  /\ locations (snd run) = []
  /\ processed_files (snd run) = []
  /\ Forall (fun ev => touches_data ev = false) (added Sample.empty (snd run)).
Proof.
  apply (X2_walk_error_stops_the_run Sample.env "nowhere" Sample.empty
           (mkWalkVisit "nowhere" (inl "lstat: no such file or directory"))
           "lstat: no such file or directory");
    try reflexivity; try discriminate.
  - exists "postgres://localhost/geocoding". split; reflexivity.
  - now left.
Defined.

(** ** Setup and argument errors *)

(** X3.  [main] exits with code 1 and leaves both tables as they were,
    having opened no file, walked no directory and reached no data of the
    store, whenever the flags are both missing or both given, the
    configuration does not load, the connection fails, or one of the two
    table-creation statements fails.  In the first four cases not even a
    round trip is made: the only thing the run does is print one line. *)
Theorem X3_setup_failures_touch_nothing env file directory w :
  (file = "" /\ directory = "")
  \/ (file <> "" /\ directory <> "")
  \/ (exists msg, LoadConfig env = inl msg)
  \/ (exists src msg, LoadConfig env = inr src /\ Connect env src = Some msg)
  \/ (exists msg, hd None (faults w) = Some msg)
  \/ (exists msg, hd None (faults w) = None
                  /\ hd None (tl (faults w)) = Some msg) ->
  let run := main env file directory w in
  fst run = 1
  /\ locations (snd run) = locations w
  /\ processed_files (snd run) = processed_files w
  /\ Forall (fun ev => is_setup_event ev = true) (added w (snd run))
  /\ ((file = "" /\ directory = "")
      \/ (file <> "" /\ directory <> "")
      \/ (exists msg, LoadConfig env = inl msg)
      \/ (exists src msg, LoadConfig env = inr src /\ Connect env src = Some msg) ->
      exists m, snd run = print m w).
Proof.
  intros H run. unfold run, main.
  destruct ((file =? "")%string && (directory =? "")%string) eqn:Enone.
  { simpl. unfold print, log. rewrite added_app.
    repeat split; repeat constructor. intros _. eauto. }
  destruct (negb (file =? "")%string && negb (directory =? "")%string) eqn:Eboth.
  { simpl. unfold print, log. rewrite added_app.
    repeat split; repeat constructor. intros _. eauto. }
  assert (Hflags : ~ (file = "" /\ directory = "")
                   /\ ~ (file <> "" /\ directory <> "")).
  { split.
    - intros [-> ->]. discriminate.
    - intros [Hf Hd]. apply String.eqb_neq in Hf, Hd.
      rewrite Hf, Hd in Eboth. discriminate. }
  destruct Hflags as [Hn Hb].
  destruct (LoadConfig env) as [cmsg|src] eqn:Hcfg.
  { simpl. unfold print, log. rewrite added_app.
    repeat split; repeat constructor. intros _. eauto. }
  destruct (Connect env src) as [cmsg|] eqn:Hconn.
  { simpl. unfold print, log. rewrite added_app.
    repeat split; repeat constructor. intros _. eauto. }
  assert (Hpre : ~ ((file = "" /\ directory = "")
                    \/ (file <> "" /\ directory <> "")
                    \/ (exists msg, @inr string string src = inl msg)
                    \/ (exists src' msg,
                          @inr string string src = inr src'
                          /\ Connect env src' = Some msg))).
  { intros [X|[X|[[m X]|(src' & m & X & Y)]]]; try tauto; try discriminate.
    inversion X; subst. congruence. }
  unfold createTablesIfNotExists, roundtrip, print, log. simpl.
  destruct H as [X|[X|[[m X]|[(src' & m & X & Y)|[[m X]|(m & X & Y)]]]]];
    try tauto; try discriminate.
  - inversion X; subst. congruence.
  - rewrite X. simpl. rewrite <- app_assoc. simpl. rewrite added_app.
    repeat split; repeat constructor. intros Z. tauto.
  - rewrite X. simpl. rewrite Y. simpl. rewrite <- !app_assoc. simpl.
    rewrite added_app. repeat split; repeat constructor. intros Z. tauto.
Qed.

Lemma X3_witness :
  fst (main Sample.env "data/a.csv" "data" Sample.empty) = 1
  /\ (exists m,
        snd (main Sample.env "data/a.csv" "data" Sample.empty)
        = print m Sample.empty)
  /\ fst (main Sample.env "" "data"
            (mkWorld [] [] [None; Some "permission denied"] [])) = 1.
Proof.
  split; [|split].
  - apply (X3_setup_failures_touch_nothing Sample.env "data/a.csv" "data"
             Sample.empty).
    right. left. split; discriminate.
  - apply (X3_setup_failures_touch_nothing Sample.env "data/a.csv" "data"
             Sample.empty).
    + right. left. split; discriminate.
    + right. left. split; discriminate.
  - apply (X3_setup_failures_touch_nothing Sample.env "" "data"
             (mkWorld [] [] [None; Some "permission denied"] [])).
    do 5 right. exists "permission denied". split; reflexivity.
Defined.

(** ** Failures of the single-file mode *)

(** X4.  In the single-file mode a file that does not parse ends the run
    with exit code 1 before the store sees any of it: after the two setup
    statements no round trip is made.  A bulk insert that fails ends the
    run with exit code 1 as well, with no row added and without the
    verification being run.  Either way both tables are as they were. *)
Theorem X4_single_file_failures env file w :
  starts env -> file <> "" ->
  hd None (faults w) = None -> hd None (tl (faults w)) = None ->
  let run := main env file "" w in
  (forall e,
     parseOpened (Open env file) = Err e ->
     fst run = 1
     /\ locations (snd run) = locations w
     /\ processed_files (snd run) = processed_files w
     /\ faults (snd run) = tl (tl (faults w))
     /\ added w (snd run)
        = [EvExec CreateLocations; EvExec CreateProcessedFiles;
           EvPrint (msg_starting_file file); EvOpen file;
           EvPrint (msg_error_parsing_csv e)])
  /\ (forall records msg,
        parseOpened (Open env file) = Ok records ->
        hd None (tl (tl (faults w))) = Some msg ->
        fst run = 1
        /\ locations (snd run) = locations w
        /\ processed_files (snd run) = processed_files w
        /\ added w (snd run)
           = [EvExec CreateLocations; EvExec CreateProcessedFiles;
              EvPrint (msg_starting_file file); EvOpen file;
              EvPrint (msg_parsed (GoInt.len records)); EvCopyFrom records;
              EvPrint (msg_error_inserting (errorString msg))]).
Proof.
  intros Hs Hf H1 H2 run. unfold run.
  rewrite (main_file env file w Hs Hf H1 H2).
  set (w0 := mkWorld (locations w) (processed_files w) (tl (tl (faults w)))
               (trace w ++ [EvExec CreateLocations; EvExec CreateProcessedFiles])).
  split.
  - intros e E. rewrite (importFile_parse_failed env file w0 e E). simpl.
    rewrite <- app_assoc. simpl. rewrite added_app. repeat split.
  - intros records msg E I.
    rewrite (importFile_insert_failed env file w0 records msg E I). simpl.
    rewrite <- app_assoc. simpl. rewrite added_app. repeat split.
Qed.

Lemma X4_witness :
  fst (main Sample.env "data/b.csv" "" Sample.empty) = 1
  /\ locations (snd (main Sample.env "data/b.csv" "" Sample.empty)) = []
  /\ fst (main Sample.env "data/a.csv" ""
            (mkWorld [] [] [None; None; Some "deadlock"] [])) = 1
  /\ locations
       (snd (main Sample.env "data/a.csv" ""
               (mkWorld [] [] [None; None; Some "deadlock"] []))) = [].
Proof.
  assert (Hs : starts Sample.env)
    by (exists "postgres://localhost/geocoding"; split; reflexivity).
  destruct (X4_single_file_failures Sample.env "data/b.csv" Sample.empty Hs)
    as [Hparse _]; try reflexivity; try discriminate.
  destruct (Hparse (invalid_record_length 3)) as (A & B & _);
    [vm_compute; reflexivity|].
  destruct (X4_single_file_failures Sample.env "data/a.csv"
              (mkWorld [] [] [None; None; Some "deadlock"] []) Hs)
    as [_ Hins]; try reflexivity; try discriminate.
  destruct (Hins [Sample.marunouchi_record] "deadlock") as (C & D & _);
    try (vm_compute; reflexivity).
  repeat split; assumption.
Defined.

(** ** The directory loop under any store *)

(** X5.  When the ledger query for a file fails, the file is counted as
    failed without being opened: the failed-file counter is incremented,
    the other counters and both tables stay as they are, and the loop goes
    on with the next file. *)
Theorem X5_ledger_query_failure_fails_the_file env f c w msg :
  hd None (faults w) = Some msg ->
  let st := processFile env f (c, w) in
  failedFiles (fst st) = GoInt.incr (failedFiles c)
  /\ processedFiles (fst st) = processedFiles c
  /\ totalRecords (fst st) = totalRecords c
  /\ locations (snd st) = locations w
  /\ processed_files (snd st) = processed_files w
  /\ added w (snd st)
     = [EvPrint (msg_processing_file f); EvIsFileProcessed f;
        EvPrint (msg_error_checking_processed (errorString msg))]
  /\ forall rest,
       processFiles env (f :: rest) (c, w) = processFiles env rest st.
Proof.
  intros H st.
  assert (Hnext : forall rest,
             processFiles env (f :: rest) (c, w) = processFiles env rest st)
    by reflexivity.
  revert Hnext. unfold st.
  rewrite (processFile_check_failed env f c w msg H). simpl.
  rewrite added_app. intros Hnext. repeat split. exact Hnext.
Qed.

Lemma X5_witness :
  let w := mkWorld [] [] [Some "timeout"] [] in
  let st := processFile Sample.env "data/a.csv" (mkCounters 4 2 1, w) in
  locations (snd st) = [] /\ processed_files (snd st) = []
  /\ added w (snd st)
     = [EvPrint (msg_processing_file "data/a.csv");
        EvIsFileProcessed "data/a.csv";
        EvPrint (msg_error_checking_processed (errorString "timeout"))].
Proof.
  intros w st.
  destruct (X5_ledger_query_failure_fails_the_file Sample.env "data/a.csv"
              (mkCounters 4 2 1) w "timeout" eq_refl)
    as (_ & _ & _ & A & B & C & _).
  repeat split; assumption.
Defined.

Lemma wrap_add_wrap (k n : Z) :
  GoInt.add (GoInt.wrap k) n = GoInt.wrap (k + n).
Proof.
  unfold GoInt.add, GoInt.wrap.
  replace ((k + 2 ^ 63) mod 2 ^ 64 - 2 ^ 63 + n + 2 ^ 63)
    with ((k + 2 ^ 63) mod 2 ^ 64 + n) by ring.
  rewrite Zplus_mod_idemp_l. f_equal. f_equal. ring.
Qed.

Lemma wrap_small (a : Z) :
  GoInt.min_int <= a <= GoInt.max_int -> GoInt.wrap a = a.
Proof.
  unfold GoInt.wrap, GoInt.min_int, GoInt.max_int. intros H.
  rewrite Z.mod_small; lia.
Qed.

Lemma ledger_has_false_notin (f : string) (l : list (string * Z)) :
  ledger_has f l = false -> ~ In f (map fst l).
Proof.
  unfold ledger_has. induction l as [|[g n] r IH]; simpl; [tauto|].
  intros H. apply orb_false_elim in H as [Hg Hr].
  apply String.eqb_neq in Hg. intros [X|X]; [congruence|now apply IH].
Qed.

Lemma ledger_has_true_in (f : string) (l : list (string * Z)) :
  ledger_has f l = true <-> In f (map fst l).
Proof.
  unfold ledger_has. induction l as [|[g n] r IH]; simpl.
  - split; [discriminate|tauto].
  - rewrite orb_true_iff, String.eqb_eq, IH. reflexivity.
Qed.

Lemma NoDup_snoc {A : Type} (l : list A) (x : A) :
  NoDup l -> ~ In x l -> NoDup (l ++ [x]).
Proof.
  intros ND Hx. apply (Permutation_NoDup (l := x :: l)).
  - apply Permutation_cons_append.
  - now constructor.
Qed.

(** What one file does to the counters, the tables and the log, whatever
    the store answers. *)
Lemma processFile_account env f c w :
  exists c1 ins led fl evs (p q : nat),
    processFile env f (c, w)
    = (c1, mkWorld (locations w ++ ins) (processed_files w ++ led) fl
             (trace w ++ evs))
    /\ (forall k, totalRecords c = GoInt.wrap k ->
                  totalRecords c1 = GoInt.wrap (k + GoInt.len ins))
    /\ (forall k, processedFiles c = GoInt.wrap k ->
                  processedFiles c1 = GoInt.wrap (k + Z.of_nat p))
    /\ (forall k, failedFiles c = GoInt.wrap k ->
                  failedFiles c1 = GoInt.wrap (k + Z.of_nat q))
    /\ (p + q <= 1)%nat
    /\ filter is_ledger_query evs = [EvIsFileProcessed f]
    /\ Forall (ledger_row_ok env [f] ins) led
    /\ (NoDup (map fst (processed_files w)) ->
        NoDup (map fst (processed_files w ++ led))).
Proof.
  assert (Hsame : forall k x, x = GoInt.wrap k -> x = GoInt.wrap (k + 0))
    by (intros k x ->; now rewrite Z.add_0_r).
  assert (Hincr : forall k x, x = GoInt.wrap k ->
                              GoInt.incr x = GoInt.wrap (k + 1))
    by (intros k x ->; apply wrap_add_wrap).
  destruct (hd None (faults w)) as [msg|] eqn:H.
  { rewrite (processFile_check_failed env f c w msg H).
    exists (fail_file c), [], [], (tl (faults w)). eexists. exists 0%nat, 1%nat.
    rewrite (app_nil_r (locations w)), (app_nil_r (processed_files w)).
    split; [reflexivity|]. simpl. repeat split; auto. }
  destruct (ledger_has f (processed_files w)) eqn:L.
  { rewrite (processFile_skipped env f c w H L).
    exists c, [], [], (tl (faults w)). eexists. exists 0%nat, 0%nat.
    rewrite (app_nil_r (locations w)), (app_nil_r (processed_files w)).
    split; [reflexivity|]. simpl. repeat split; auto. }
  destruct (parseOpened (Open env f)) as [records|e] eqn:E.
  2:{ rewrite (processFile_parse_failed env f c w e H L E).
      exists (fail_file c), [], [], (tl (faults w)). eexists.
      exists 0%nat, 1%nat.
      rewrite (app_nil_r (locations w)), (app_nil_r (processed_files w)).
      split; [reflexivity|]. simpl. repeat split; auto. }
  destruct (hd None (tl (faults w))) as [msg|] eqn:I.
  { rewrite (processFile_insert_failed env f c w records msg H L E I).
    exists (fail_file c), [], [], (tl (tl (faults w))). eexists.
    exists 0%nat, 1%nat.
    rewrite (app_nil_r (locations w)), (app_nil_r (processed_files w)).
    split; [reflexivity|]. simpl. repeat split; auto. }
  assert (Htotal : forall k, totalRecords c = GoInt.wrap k ->
                     GoInt.add (totalRecords c) (GoInt.len records)
                     = GoInt.wrap (k + GoInt.len records))
    by (intros k ->; apply wrap_add_wrap).
  destruct (hd None (tl (tl (faults w)))) as [msg|] eqn:M.
  { rewrite (processFile_mark_failed env f c w records msg H L E I M).
    exists (count_file records c), records, [], (tl (tl (tl (faults w)))).
    eexists. exists 1%nat, 0%nat.
    rewrite (app_nil_r (processed_files w)).
    split; [reflexivity|]. simpl. repeat split; auto. }
  rewrite (processFile_ledgered env f c w records H L E I M).
  exists (count_file records c), records, [(f, GoInt.len records)],
    (tl (tl (tl (faults w)))).
  eexists. exists 1%nat, 0%nat.
  split; [reflexivity|]. simpl. repeat split; auto.
  - constructor; [|constructor]. split; [now left|].
    exists records, [], []. simpl. rewrite app_nil_r. auto.
  - intros ND. rewrite map_app. simpl.
    apply NoDup_snoc; [exact ND|now apply ledger_has_false_notin].
Qed.

Lemma ledger_row_ok_weaken env files files' ins l1 l2 row :
  incl files files' ->
  ledger_row_ok env files ins row ->
  ledger_row_ok env files' (l1 ++ ins ++ l2) row.
Proof.
  intros Hincl (Hin & records & a & b & E & Hn & ->).
  split; [now apply Hincl|].
  exists records, (l1 ++ a), (b ++ l2). repeat split; auto.
  now rewrite <- !app_assoc.
Qed.

Lemma processFiles_account env files :
  forall c w kt kp kf,
    totalRecords c = GoInt.wrap kt ->
    processedFiles c = GoInt.wrap kp ->
    failedFiles c = GoInt.wrap kf ->
    exists c' ins led fl evs (p q : nat),
      processFiles env files (c, w)
      = (c', mkWorld (locations w ++ ins) (processed_files w ++ led) fl
               (trace w ++ evs))
      /\ totalRecords c' = GoInt.wrap (kt + GoInt.len ins)
      /\ processedFiles c' = GoInt.wrap (kp + Z.of_nat p)
      /\ failedFiles c' = GoInt.wrap (kf + Z.of_nat q)
      /\ (p + q <= List.length files)%nat
      /\ filter is_ledger_query evs = map EvIsFileProcessed files
      /\ Forall (ledger_row_ok env files ins) led
      /\ (NoDup (map fst (processed_files w)) ->
          NoDup (map fst (processed_files w ++ led))).
Proof.
  induction files as [|f rest IH]; intros c w kt kp kf Ht Hp Hf.
  - exists c, [], [], (faults w), [], 0%nat, 0%nat. simpl.
    rewrite !app_nil_r, !Z.add_0_r. destruct w. simpl.
    repeat split; auto.
  - cbn [processFiles].
    destruct (processFile_account env f c w)
      as (c1 & ins1 & led1 & fl1 & evs1 & p1 & q1
          & -> & T1 & P1 & F1 & B1 & Q1 & R1 & N1).
    destruct (IH c1 (mkWorld (locations w ++ ins1) (processed_files w ++ led1)
                       fl1 (trace w ++ evs1))
                (kt + GoInt.len ins1) (kp + Z.of_nat p1) (kf + Z.of_nat q1)
                (T1 _ Ht) (P1 _ Hp) (F1 _ Hf))
      as (c2 & ins2 & led2 & fl2 & evs2 & p2 & q2
          & -> & T2 & P2 & F2 & B2 & Q2 & R2 & N2).
    simpl in *.
    exists c2, (ins1 ++ ins2), (led1 ++ led2), fl2, (evs1 ++ evs2),
      (p1 + p2)%nat, (q1 + q2)%nat.
    rewrite !app_assoc. split; [reflexivity|].
    rewrite len_app, !Nat2Z.inj_add, !Z.add_assoc.
    split; [exact T2|]. split; [exact P2|]. split; [exact F2|].
    split; [lia|]. split.
    { rewrite filter_app, Q1, Q2. reflexivity. }
    split.
    { apply Forall_app. split.
      - eapply Forall_impl; [|exact R1]. intros row Hrow.
        apply (ledger_row_ok_weaken env [f] (f :: rest) ins1 [] ins2) in Hrow.
        + exact Hrow.
        + intros x [<-|[]]. now left.
      - eapply Forall_impl; [|exact R2]. intros row Hrow.
        apply (ledger_row_ok_weaken env rest (f :: rest) ins2 ins1 []) in Hrow.
        + now rewrite app_nil_r in Hrow.
        + intros x Hx. now right. }
    intros ND. apply N2, N1, ND.
Qed.

Lemma main_directory_account env directory files w :
  starts env -> directory <> "" ->
  hd None (faults w) = None -> hd None (tl (faults w)) = None ->
  discovers env directory files ->
  exists ins led fl evs (p q : nat),
    main env "" directory w
    = (0,
       mkWorld (locations w ++ ins) (processed_files w ++ led) fl
         (trace w ++
          [EvExec CreateLocations; EvExec CreateProcessedFiles;
           EvPrint (msg_starting_directory directory); EvWalk directory;
           EvPrint (msg_found_csv_files (GoInt.len files))]
          ++ evs
          ++ [EvPrint (msg_directory_import_completed
                         (GoInt.wrap (Z.of_nat p)) (GoInt.wrap (Z.of_nat q))
                         (GoInt.wrap (GoInt.len ins)))]))
    /\ (p + q <= List.length files)%nat
    /\ filter is_ledger_query evs = map EvIsFileProcessed files
    /\ Forall (ledger_row_ok env files ins) led
    /\ (NoDup (map fst (processed_files w)) ->
        NoDup (map fst (processed_files w ++ led))).
Proof.
  intros Hs Hd H1 H2 Hw.
  rewrite (main_directory env directory w files Hs Hd H1 H2 Hw). cbv zeta.
  destruct (processFiles_account env files (mkCounters 0 0 0)
              (after_setup directory files w) 0 0 0)
    as (c' & ins & led & fl & evs & p & q & -> & T & P & F & B & Q & R & N);
    try reflexivity.
  exists ins, led, fl, evs, p, q. simpl in *.
  rewrite T, P, F. unfold print, log. simpl.
  rewrite <- !app_assoc. simpl. repeat split; assumption.
Qed.

(** X6.  Whatever the store answers while the files are processed, the
    summary a directory run prints agrees with what it did to the store:
    the total it reports is the number of rows it added to [locations]
    (as an [int]), and the processed and failed counts together do not
    exceed the number of files found. *)
Theorem X6_summary_counts_the_rows_inserted env directory files w :
  starts env -> directory <> "" ->
  hd None (faults w) = None -> hd None (tl (faults w)) = None ->
  discovers env directory files ->
  let run := main env "" directory w in
  exists ins (p q : nat),
    locations (snd run) = locations w ++ ins
    /\ last (trace (snd run)) (EvPrint msg_flag_required)
       = EvPrint (msg_directory_import_completed
                    (GoInt.wrap (Z.of_nat p)) (GoInt.wrap (Z.of_nat q))
                    (GoInt.wrap (GoInt.len ins)))
    /\ (p + q <= List.length files)%nat
    /\ (GoInt.len ins <= GoInt.max_int -> GoInt.wrap (GoInt.len ins) = GoInt.len ins).
Proof.
  intros Hs Hd H1 H2 Hw run.
  destruct (main_directory_account env directory files w Hs Hd H1 H2 Hw)
    as (ins & led & fl & evs & p & q & E & B & _).
  exists ins, p, q. unfold run. rewrite E. simpl.
  split; [reflexivity|]. split.
  - rewrite !app_comm_cons, !app_assoc. apply last_last.
  - split; [exact B|]. intros Hmax. apply wrap_small.
    pose proof (len_nonneg ins). unfold GoInt.min_int. lia.
Qed.

Lemma X6_witness :
  let w := mkWorld [] [] [None; None; None; None; Some "lost"; None; None;
                          Some "refused"] [] in
  let run := main Sample.env "" "data" w in
  exists ins (p q : nat),
    locations (snd run) = [] ++ ins
    /\ last (trace (snd run)) (EvPrint msg_flag_required)
       = EvPrint (msg_directory_import_completed
                    (GoInt.wrap (Z.of_nat p)) (GoInt.wrap (Z.of_nat q))
                    (GoInt.wrap (GoInt.len ins)))
    /\ (p + q <= 3)%nat
    /\ (GoInt.len ins <= GoInt.max_int -> GoInt.wrap (GoInt.len ins) = GoInt.len ins).
Proof.
  intros w run.
  apply (X6_summary_counts_the_rows_inserted Sample.env "data"
           ["data/a.csv"; "data/b.csv"; "data/c.csv"] w);
    try reflexivity; try discriminate.
  exists "postgres://localhost/geocoding". split; reflexivity.
Defined.

Lemma added_app_general (w w' : World) (evs : list Event) :
  trace w' = trace w ++ evs -> added w w' = evs.
Proof.
  intros H. unfold added. rewrite H, skipn_app, skipn_all, Nat.sub_diag.
  reflexivity.
Qed.

(** X7.  A directory run asks the ledger about every file the walk
    found, once each and in the order of the walk, whatever the store
    answers: no file is processed without the ledger being asked, and a
    failure on one file does not make the run skip the question for the
    next. *)
Theorem X7_ledger_asked_once_per_file env directory files w :
  starts env -> directory <> "" ->
  hd None (faults w) = None -> hd None (tl (faults w)) = None ->
  discovers env directory files ->
  filter is_ledger_query (added w (snd (main env "" directory w)))
  = map EvIsFileProcessed files.
Proof.
  intros Hs Hd H1 H2 Hw.
  destruct (main_directory_account env directory files w Hs Hd H1 H2 Hw)
    as (ins & led & fl & evs & p & q & E & _ & Q & _).
  rewrite E. simpl. rewrite added_app.
  simpl. rewrite filter_app, Q. simpl. now rewrite app_nil_r.
Qed.

Lemma X7_witness :
  filter is_ledger_query
    (added (mkWorld [] [] [None; None; Some "down"; None; Some "down"] [])
       (snd (main Sample.env "" "data"
               (mkWorld [] [] [None; None; Some "down"; None; Some "down"] []))))
  = [EvIsFileProcessed "data/a.csv"; EvIsFileProcessed "data/b.csv";
     EvIsFileProcessed "data/c.csv"].
Proof.
  apply (X7_ledger_asked_once_per_file Sample.env "data"
           ["data/a.csv"; "data/b.csv"; "data/c.csv"]);
    try reflexivity; try discriminate.
  exists "postgres://localhost/geocoding". split; reflexivity.
Defined.

(** X8.  Whatever the store answers, every entry a directory run adds to
    the ledger is for one of the files found, carries the number of
    records [parseCSV] made of that file, and the records of that file are
    among the rows the same run added to [locations]: no entry is written
    for a file whose rows are not in the store. *)
Theorem X8_ledger_entries_have_their_rows env directory files w :
  starts env -> directory <> "" ->
  hd None (faults w) = None -> hd None (tl (faults w)) = None ->
  discovers env directory files ->
  let run := main env "" directory w in
  exists ins led,
    locations (snd run) = locations w ++ ins
    /\ processed_files (snd run) = processed_files w ++ led
    /\ Forall (ledger_row_ok env files ins) led.
Proof.
  intros Hs Hd H1 H2 Hw run.
  destruct (main_directory_account env directory files w Hs Hd H1 H2 Hw)
    as (ins & led & fl & evs & p & q & E & _ & _ & R & _).
  exists ins, led. unfold run. rewrite E. simpl. repeat split. exact R.
Qed.

Lemma X8_witness :
  let run := main Sample.env "" "data" Sample.empty in
  exists ins led,
    locations (snd run) = [] ++ ins
    /\ processed_files (snd run) = [] ++ led
    /\ Forall (ledger_row_ok Sample.env
                 ["data/a.csv"; "data/b.csv"; "data/c.csv"] ins) led.
Proof.
  apply (X8_ledger_entries_have_their_rows Sample.env "data"
           ["data/a.csv"; "data/b.csv"; "data/c.csv"] Sample.empty);
    try reflexivity; try discriminate.
  exists "postgres://localhost/geocoding". split; reflexivity.
Defined.

(** ** The ledger *)

Lemma markFileProcessed_cases f n w :
  let w' := snd (markFileProcessed f n w) in
  locations w' = locations w
  /\ (processed_files w' = processed_files w
      \/ (hd None (faults w) = None
          /\ ledger_has f (processed_files w) = false
          /\ processed_files w' = processed_files w ++ [(f, n)])).
Proof.
  unfold markFileProcessed, roundtrip, set_processed_files. simpl.
  destruct (hd None (faults w)); simpl; [tauto|].
  destruct (ledger_has f (processed_files w)) eqn:L; simpl; tauto.
Qed.

(** X9.  The keys of the ledger stay unique: [markFileProcessed] never
    adds a second entry for a path, and so no run of [main], in either
    mode and whatever the store answers, leaves two entries for one
    file. *)
Theorem X9_ledger_keys_stay_unique :
  (forall f n w,
     NoDup (ledger_keys w) -> NoDup (ledger_keys (snd (markFileProcessed f n w))))
  /\ (forall env file directory w,
        NoDup (ledger_keys w) ->
        NoDup (ledger_keys (snd (main env file directory w)))).
Proof.
  split.
  - intros f n w ND. unfold ledger_keys in *.
    destruct (markFileProcessed_cases f n w) as [_ [->|(_ & L & ->)]];
      [exact ND|].
    rewrite map_app. simpl.
    apply NoDup_snoc; [exact ND|now apply ledger_has_false_notin].
  - intros env file directory w ND. unfold ledger_keys in *. unfold main.
    destruct ((file =? "")%string && (directory =? "")%string); [exact ND|].
    destruct (negb (file =? "")%string && negb (directory =? "")%string);
      [exact ND|].
    destruct (LoadConfig env) as [msg|src]; [exact ND|].
    destruct (Connect env src) as [msg|]; [exact ND|].
    destruct (createTablesIfNotExists_frame w) as (_ & Hp & _).
    destruct (createTablesIfNotExists w) as [[e|] w1]; simpl in *.
    { now rewrite Hp. }
    destruct (negb (file =? "")%string).
    + destruct (importFile_frame env file w1) as [Hp2 _].
      now rewrite Hp2, Hp.
    + unfold importDirectory, findCSVFiles, print, log. simpl.
      destruct (walkFunc (Walk env directory) []) as [files [e|]]; simpl.
      { now rewrite Hp. }
      match goal with |- context [processFiles env files (?c, ?x)] =>
        destruct (processFiles_account env files c x 0 0 0)
          as (c' & ins & led & fl & evs & p & q & -> & _ & _ & _ & _ & _ & _ & N);
          try reflexivity
      end.
      simpl in *. apply N. now rewrite Hp.
Qed.

Lemma X9_witness :
  NoDup (ledger_keys
           (snd (main Sample.env "" "data"
                   (mkWorld [] [("data/c.csv", 1)] [] [])))).
Proof.
  apply (proj2 X9_ledger_keys_stay_unique).
  unfold ledger_keys. simpl. repeat constructor. intros [].
Defined.

(** X10.  Writing and reading the ledger agree.  After a
    [markFileProcessed] that the store answers, [isFileProcessed] on the
    same path answers true (when the store answers it), and the answer for
    any other path is what it was.  An entry that is already there is kept
    as it is: a second write for the same path, with whatever count,
    changes nothing.  A write that the store refuses changes nothing. *)
Theorem X10_ledger_write_then_read :
  (forall f n w,
     hd None (faults w) = None ->
     let w1 := snd (markFileProcessed f n w) in
     fst (markFileProcessed f n w) = None
     /\ ledger_has f (processed_files w1) = true
     /\ (hd None (faults w1) = None ->
         fst (isFileProcessed f w1) = (true, None))
     /\ (forall g, g <> f ->
                   ledger_has g (processed_files w1)
                   = ledger_has g (processed_files w)))
  /\ (forall f n w,
        ledger_has f (processed_files w) = true ->
        processed_files (snd (markFileProcessed f n w)) = processed_files w)
  /\ (forall f n w msg,
        hd None (faults w) = Some msg ->
        fst (markFileProcessed f n w) = Some (errorString msg)
        /\ processed_files (snd (markFileProcessed f n w)) = processed_files w).
Proof.
  split; [|split].
  - intros f n w H w1. unfold w1, markFileProcessed, roundtrip,
      set_processed_files. simpl. rewrite H. simpl.
    destruct (ledger_has f (processed_files w)) eqn:L; simpl.
    + split; [reflexivity|]. split; [exact L|]. split.
      * intros H'. unfold isFileProcessed, roundtrip. simpl. rewrite H'. simpl.
        now rewrite L.
      * reflexivity.
    + assert (L' : ledger_has f (processed_files w ++ [(f, n)]) = true).
      { rewrite ledger_has_app, ledger_has_one, String.eqb_refl.
        apply orb_true_r. }
      split; [reflexivity|]. split; [exact L'|]. split.
      * intros H'. unfold isFileProcessed, roundtrip. simpl. rewrite H'. simpl.
        now rewrite L'.
      * intros g Hg. rewrite ledger_has_app, ledger_has_one.
        apply not_eq_sym in Hg. apply String.eqb_neq in Hg. rewrite Hg.
        apply orb_false_r.
  - intros f n w L. unfold markFileProcessed, roundtrip. simpl.
    destruct (hd None (faults w)); simpl; [reflexivity|]. now rewrite L.
  - intros f n w msg H. unfold markFileProcessed, roundtrip. simpl.
    rewrite H. simpl. split; reflexivity.
Qed.

Lemma X10_witness :
  fst (isFileProcessed "data/a.csv"
         (snd (markFileProcessed "data/a.csv" 7 Sample.empty))) = (true, None)
  /\ processed_files
       (snd (markFileProcessed "data/a.csv" 9
               (snd (markFileProcessed "data/a.csv" 7 Sample.empty))))
     = [("data/a.csv", 7)]
  /\ processed_files
       (snd (markFileProcessed "data/a.csv" 7
               (mkWorld [] [] [Some "read-only"] []))) = [].
Proof.
  destruct X10_ledger_write_then_read as (Hw & Hkeep & Hfail).
  split; [|split].
  - apply (Hw "data/a.csv" 7 Sample.empty); reflexivity.
  - rewrite (Hkeep "data/a.csv" 9).
    + reflexivity.
    + apply (Hw "data/a.csv" 7 Sample.empty). reflexivity.
  - apply (Hfail "data/a.csv" 7 (mkWorld [] [] [Some "read-only"] [])
             "read-only").
    reflexivity.
Defined.

Lemma processFiles_fresh_ledger env files :
  forall c w,
    reliable w ->
    NoDup files ->
    (forall f, In f files -> ledger_has f (processed_files w) = false) ->
    processed_files (snd (processFiles env files (c, w)))
    = processed_files w
      ++ map (fun f => (f, GoInt.len (file_records env f)))
           (filter (well_formed env) files).
Proof.
  induction files as [|f rest IH]; intros c w R ND Fresh.
  - simpl. now rewrite app_nil_r.
  - inversion ND as [|? ? Hnotin ND']; subst.
    cbn [processFiles].
    destruct (processFile_reliable env f c w R) as [tr ->].
    rewrite (Fresh f (or_introl eq_refl)).
    destruct (parseOpened (Open env f)) as [records|e] eqn:E.
    + assert (Hwf : well_formed env f = true)
        by (unfold well_formed; now rewrite E).
      assert (Hrec : file_records env f = records)
        by (unfold file_records; now rewrite E).
      rewrite IH; [|reflexivity|exact ND'|].
      * simpl. rewrite Hwf. simpl. rewrite Hrec. now rewrite <- app_assoc.
      * intros g Hg. simpl.
        rewrite ledger_has_app, ledger_has_one, (Fresh g (or_intror Hg)).
        simpl. apply String.eqb_neq. intros ->. contradiction.
    + assert (Hwf : well_formed env f = false)
        by (unfold well_formed; now rewrite E).
      rewrite IH; [|reflexivity|exact ND'|].
      * simpl. now rewrite Hwf.
      * intros g Hg. simpl. apply Fresh. now right.
Qed.

(** X11.  With a store that answers every round trip and a ledger that
    knows none of the files found, a directory run leaves on the ledger
    exactly one new entry per file that parses, in the order of the walk,
    each with the number of records of its file; files that do not parse
    get no entry. *)
Theorem X11_ledger_after_a_clean_run env directory files w :
  starts env -> directory <> "" -> reliable w ->
  discovers env directory files ->
  NoDup files ->
  (forall f, In f files -> ledger_has f (processed_files w) = false) ->
  processed_files (snd (main env "" directory w))
  = processed_files w
    ++ map (fun f => (f, GoInt.len (file_records env f)))
         (filter (well_formed env) files).
Proof.
  intros Hs Hd R Hw ND Fresh.
  destruct (reliable_answers w R) as (H1 & H2 & _ & _ & T2 & _).
  rewrite (main_directory env directory w files Hs Hd H1 H2 Hw). cbv zeta.
  simpl.
  rewrite (processFiles_fresh_ledger env files (mkCounters 0 0 0)
             (after_setup directory files w)); auto.
Qed.

Lemma X11_witness :
  processed_files (snd (main Sample.env "" "data" Sample.empty))
  = [("data/a.csv", 1); ("data/c.csv", 1)].
Proof.
  rewrite (X11_ledger_after_a_clean_run Sample.env "data"
             ["data/a.csv"; "data/b.csv"; "data/c.csv"] Sample.empty);
    try reflexivity; try discriminate.
  - exists "postgres://localhost/geocoding". split; reflexivity.
  - repeat constructor; simpl; intuition discriminate.
Defined.

(** ** The parser at the edges of a file *)

(** X12.  What [parseCSV] does at the edges of a file.  A file that
    cannot be opened, an empty file and a file whose first read fails are
    errors (the last two as a failure to read the header).  A file with a
    header and no row parses to no record.  After well-formed rows, a read
    error fails the whole file, except an error whose message is ["EOF"]:
    it ends the parse with the records read so far, whatever comes after
    it. *)
Theorem X12_parser_at_the_edges :
  (forall msg,
     parseOpened (inl msg) = Err (failed_to_open_file (errorString msg)))
  /\ parseOpened (inr []) = Err (failed_to_read_header (errorString "EOF"))
  /\ (forall msg rest,
        parseOpened (inr (ReadError msg :: rest))
        = Err (failed_to_read_header (errorString msg)))
  /\ (forall header, parseOpened (inr [ReadRecord header]) = Ok [])
  /\ (forall header rows recs msg rest,
        Forall2 row_parses rows recs ->
        msg <> "EOF" ->
        parseOpened
          (inr (ReadRecord header :: map ReadRecord rows ++ ReadError msg :: rest))
        = Err (failed_to_read_record (errorString msg)))
  /\ (forall header rows recs rest,
        Forall2 row_parses rows recs ->
        parseOpened
          (inr (ReadRecord header
                :: map ReadRecord rows ++ ReadError "EOF" :: rest))
        = Ok recs).
Proof.
  split; [reflexivity|]. split; [reflexivity|]. split; [reflexivity|].
  split; [reflexivity|]. split.
  - intros header rows recs msg rest H Hmsg. unfold parseOpened.
    rewrite (readRecords_rows rows recs H). simpl.
    apply String.eqb_neq in Hmsg. now rewrite Hmsg.
  - intros header rows recs rest H. unfold parseOpened.
    now rewrite (readRecords_rows rows recs H).
Qed.

Lemma X12_witness :
  parseOpened
    (inr (ReadRecord Sample.header
          :: map ReadRecord [Sample.marunouchi]
             ++ ReadError "record on line 3: wrong number of fields"
                :: [ReadRecord Sample.akasaka]))
  = Err (failed_to_read_record
           (errorString "record on line 3: wrong number of fields"))
  /\ parseOpened
       (inr (ReadRecord Sample.header
             :: map ReadRecord [Sample.marunouchi]
                ++ ReadError "EOF" :: [ReadRecord Sample.akasaka]))
     = Ok [Sample.marunouchi_record].
Proof.
  destruct X12_parser_at_the_edges as (_ & _ & _ & _ & Herr & Heof).
  assert (Hm : Forall2 row_parses [Sample.marunouchi] [Sample.marunouchi_record]).
  { apply Forall2_cons; [|apply Forall2_nil].
    unfold row_parses. vm_compute. intuition congruence. }
  split.
  - apply (Herr _ _ _ _ _ Hm). discriminate.
  - apply (Heof _ _ _ _ Hm).
Defined.

(** ** The routes and the repository, further *)

(** X13.  The [/geocode] route.  Without a [q] parameter, or with an empty
    one, the handler answers 400 and the service is not called.  Otherwise
    the repository is called exactly once, with the value of [q]; the route
    answers 500 with the body of an internal error when the repository
    reports an error, and 200 with the locations of the repository
    otherwise (an empty list included). *)
Theorem X13_geocode_status_mapping
  (answer : forall X, service.GeoCodeRepository X -> X) (c : handler.Context) :
  let p := interp api.geoCodeService (handler.GeoCode c) in
  (handler.Query c "q" = "" ->
   run answer p
   = handler.JSON 400 (handler.body_error "missing required query parameter 'q'")
   /\ calls answer p = [])
  /\ (handler.Query c "q" <> "" ->
      calls answer p
      = [existT _ _ (service.SearchLocationsByText (handler.Query c "q"))]
      /\ run answer p
         = match answer _ (service.SearchLocationsByText (handler.Query c "q")) with
           | (_, Some _) =>
               handler.JSON 500 (handler.body_error "internal server error")
           | (locations, None) =>
               handler.JSON 200 (handler.body_locations locations)
           end).
Proof.
  intros p. unfold p, handler.GeoCode. split.
  - intros ->. split; reflexivity.
  - intros Hq. apply String.eqb_neq in Hq. rewrite Hq. simpl.
    unfold service.Geocode. rewrite Hq. simpl.
    destruct (answer _ (service.SearchLocationsByText (handler.Query c "q")))
      as [locations [e|]]; split; reflexivity.
Qed.

Lemma X13_witness :
  run (api.geoCodeRepo Sample.crowded)
    (interp api.geoCodeService (handler.GeoCode [("lat", "35")]))
  = handler.JSON 400 (handler.body_error "missing required query parameter 'q'")
  /\ run (api.geoCodeRepo Sample.repo)
       (interp api.geoCodeService (handler.GeoCode [("q", "丸の内")]))
     = handler.JSON 200 (handler.body_locations []).
Proof.
  split.
  - apply (X13_geocode_status_mapping (api.geoCodeRepo Sample.crowded)
             [("lat", "35")]).
    reflexivity.
  - destruct (X13_geocode_status_mapping (api.geoCodeRepo Sample.repo)
                [("q", "丸の内")]) as [_ H].
    destruct H as [_ ->]; [discriminate|reflexivity].
Defined.

Section OrderByAnyOrder.
Context {A : Type} (le : A -> A -> bool).

Lemma insert_by_perm (x : A) (l : list A) :
  Permutation (repository.insert_by le x l) (x :: l).
Proof.
  induction l as [|y r IH]; simpl; [reflexivity|].
  destruct (le x y); [reflexivity|].
  rewrite IH. apply perm_swap.
Qed.

Lemma order_by_perm (l : list A) : Permutation (repository.order_by le l) l.
Proof.
  induction l as [|x r IH]; simpl; [reflexivity|].
  rewrite insert_by_perm. now constructor.
Qed.
End OrderByAnyOrder.

Section OrderByAscending.
Context {A : Type} (key : A -> Q).

Lemma insert_by_head_least (x : A) (l : list A) :
  head_least key l -> head_least key (repository.insert_by (repository.asc_by key) x l).
Proof.
  destruct l as [|y r]; simpl; intros H; [constructor|].
  destruct (repository.asc_by key x y) eqn:E; simpl.
  - apply Qle_bool_iff in E. constructor; [exact E|].
    eapply Forall_impl; [|exact H]. intros b Hb. simpl in Hb.
    exact (Qle_trans _ _ _ E Hb).
  - apply Forall_forall. intros b Hb.
    apply (Permutation_in _ (insert_by_perm _ x r)) in Hb.
    destruct Hb as [<-|Hb].
    + apply Qlt_le_weak, Qnot_le_lt. intros Hle.
      apply Qle_bool_iff in Hle. unfold repository.asc_by in E. congruence.
    + rewrite Forall_forall in H. auto.
Qed.

Lemma order_by_head_least (l : list A) :
  head_least key (repository.order_by (repository.asc_by key) l).
Proof.
  destruct l as [|x r]; simpl; [exact I|].
  apply insert_by_head_least.
  induction r as [|y s IH]; simpl; [exact I|].
  now apply insert_by_head_least.
Qed.
End OrderByAscending.

Lemma nearest_rows_head (r : repository.Repository) lat lon loc rest :
  repository.nearest_rows r lat lon = loc :: rest ->
  rest = []
  /\ In loc (repository.table r)
  /\ repository.ST_DWithin_10km (repository.engine r) lat lon loc = true
  /\ forall other,
       In other (repository.table r) ->
       repository.ST_DWithin_10km (repository.engine r) lat lon other = true ->
       Qle (repository.distance (repository.engine r) lat lon loc)
           (repository.distance (repository.engine r) lat lon other).
Proof.
  unfold repository.nearest_rows.
  set (key := repository.distance (repository.engine r) lat lon).
  set (near := filter (repository.ST_DWithin_10km (repository.engine r) lat lon)
                 (repository.table r)).
  pose proof (order_by_head_least key near) as Hmin.
  pose proof (order_by_perm (repository.asc_by key) near) as Hperm.
  destruct (repository.order_by (repository.asc_by key) near) as [|x s] eqn:E;
    simpl; [discriminate|].
  intros H. inversion H; subst. split; [reflexivity|].
  assert (Hin : In loc near)
    by (apply (Permutation_in _ Hperm); now left).
  apply filter_In in Hin. split; [tauto|]. split; [tauto|].
  intros other Ho Hw.
  assert (Hon : In other near) by (apply filter_In; tauto).
  apply (Permutation_in _ (Permutation_sym Hperm)) in Hon.
  destruct Hon as [<-|Hon]; [apply Qle_refl|].
  simpl in Hmin. rewrite Forall_forall in Hmin. auto.
Qed.

(** X14.  [FindNearestLocation] returns either a location and no error, or
    no location and an error, never both and never neither.  A location it
    returns is a row of the table within the 10 km of the query whose
    distance to the point is least among the rows within 10 km.  When the
    driver reports no failure, it returns a location as soon as some row
    lies within 10 km, and the error "no location found near coordinates"
    when none does. *)
Theorem X14_FindNearestLocation_returns_the_nearest
  (r : repository.Repository) (lat lon : float64) :
  ((exists loc, repository.FindNearestLocation r lat lon = (Some loc, None))
   \/ (exists e, repository.FindNearestLocation r lat lon = (None, Some e)))
  /\ (forall loc,
        repository.FindNearestLocation r lat lon = (Some loc, None) ->
        In loc (repository.table r)
        /\ repository.ST_DWithin_10km (repository.engine r) lat lon loc = true
        /\ forall other,
             In other (repository.table r) ->
             repository.ST_DWithin_10km (repository.engine r) lat lon other = true ->
             Qle (repository.distance (repository.engine r) lat lon loc)
                 (repository.distance (repository.engine r) lat lon other))
  /\ (repository.query_err r = None ->
      (forall loc, repository.scan_err r loc = None) ->
      forall row,
        In row (repository.table r) ->
        repository.ST_DWithin_10km (repository.engine r) lat lon row = true ->
        exists loc, repository.FindNearestLocation r lat lon = (Some loc, None))
  /\ (repository.query_err r = None ->
      (forall row,
         In row (repository.table r) ->
         repository.ST_DWithin_10km (repository.engine r) lat lon row = false) ->
      repository.FindNearestLocation r lat lon
      = (None, Some repository_no_location_found_near_coordinates)).
Proof.
  split; [|split; [|split]].
  - unfold repository.FindNearestLocation.
    destruct (repository.queryRowScan r lat lon) as [msg|loc]; [right|left; eauto].
    destruct (msg =? "no rows in result set")%string; eauto.
  - intros loc H. unfold repository.FindNearestLocation in H.
    destruct (repository.queryRowScan r lat lon) as [msg|loc'] eqn:E.
    { destruct (msg =? "no rows in result set")%string; discriminate. }
    inversion H; subst. unfold repository.queryRowScan in E.
    destruct (repository.query_err r); [discriminate|].
    destruct (repository.nearest_rows r lat lon) as [|x rest] eqn:N;
      [discriminate|].
    destruct (repository.scan_err r x); [discriminate|].
    inversion E; subst. apply (nearest_rows_head r lat lon loc rest N).
  - intros Hq Hs row Hin Hw.
    unfold repository.FindNearestLocation, repository.queryRowScan.
    rewrite Hq.
    destruct (repository.nearest_rows r lat lon) as [|x rest] eqn:N.
    + exfalso. unfold repository.nearest_rows in N.
      assert (Hnear : In row (filter (repository.ST_DWithin_10km
                                        (repository.engine r) lat lon)
                                (repository.table r)))
        by (apply filter_In; tauto).
      apply (Permutation_in _
               (Permutation_sym
                  (order_by_perm
                     (repository.asc_by
                        (repository.distance (repository.engine r) lat lon)) _)))
        in Hnear.
      destruct (repository.order_by _ _); [contradiction|discriminate].
    + rewrite Hs. eauto.
  - intros Hq Hnone.
    unfold repository.FindNearestLocation, repository.queryRowScan.
    rewrite Hq.
    assert (E : filter (repository.ST_DWithin_10km (repository.engine r) lat lon)
                  (repository.table r) = []).
    { induction (repository.table r) as [|x t IH]; simpl; [reflexivity|].
      rewrite (Hnone x (or_introl eq_refl)). apply IH.
      intros row Hrow. apply Hnone. now right. }
    unfold repository.nearest_rows. rewrite E. reflexivity.
Qed.

Lemma X14_witness :
  repository.FindNearestLocation Sample.crowded (Float64.of_Z 35)
    (Float64.of_Z 139) = (Some (Sample.numbered 1), None)
  /\ In (Sample.numbered 1) (repository.table Sample.crowded)
  /\ repository.FindNearestLocation Sample.repo (Float64.of_Z 35)
       (Float64.of_Z 139)
     = (None, Some repository_no_location_found_near_coordinates).
Proof.
  destruct (X14_FindNearestLocation_returns_the_nearest Sample.crowded
              (Float64.of_Z 35) (Float64.of_Z 139)) as (_ & Hmin & _ & _).
  destruct (X14_FindNearestLocation_returns_the_nearest Sample.repo
              (Float64.of_Z 35) (Float64.of_Z 139)) as (_ & _ & _ & Hnone).
  assert (E : repository.FindNearestLocation Sample.crowded (Float64.of_Z 35)
                (Float64.of_Z 139) = (Some (Sample.numbered 1), None))
    by (vm_compute; reflexivity).
  split; [exact E|]. split.
  - apply (Hmin _ E).
  - apply Hnone; [reflexivity|]. intros row [].
Defined.

Lemma scanRows_all (r : repository.Repository) rows :
  (forall loc, repository.scan_err r loc = None) ->
  forall acc, repository.scanRows r rows acc = (acc ++ rows, None).
Proof.
  intros Hs. induction rows as [|loc rest IH]; intros acc; simpl.
  - now rewrite app_nil_r.
  - rewrite Hs, IH, <- app_assoc. reflexivity.
Qed.

(** X15.  When the driver reports no failure and at most 10 rows of the
    table match the query, [SearchLocationsByText] returns all of them and
    nothing else: the result is a rearrangement of the matching rows (a row
    stored twice comes back twice), with no error.  With an error the list
    returned is empty. *)
Theorem X15_search_drops_no_match (r : repository.Repository) (query : string) :
  (repository.query_err r = None ->
   (forall loc, repository.scan_err r loc = None) ->
   repository.rows_err r = None ->
   (List.length (filter (repository.tsquery_matches (repository.engine r) query)
                   (repository.table r)) <= 10)%nat ->
   exists locations,
     repository.SearchLocationsByText r query = (locations, None)
     /\ Permutation locations
          (filter (repository.tsquery_matches (repository.engine r) query)
             (repository.table r)))
  /\ (forall locations e,
        repository.SearchLocationsByText r query = (locations, Some e) ->
        locations = []).
Proof.
  split.
  - intros Hq Hs Hr Hlen. unfold repository.SearchLocationsByText.
    rewrite Hq, (scanRows_all r _ Hs), Hr. simpl.
    eexists. split; [reflexivity|].
    unfold repository.search_rows.
    set (ranked := repository.order_by _ _).
    assert (Hp : Permutation ranked
                   (filter (repository.tsquery_matches (repository.engine r) query)
                      (repository.table r)))
      by apply order_by_perm.
    rewrite firstn_all2; [exact Hp|].
    now rewrite (Permutation_length Hp).
  - intros locations e H.
    destruct (SearchLocationsByText_result r query) as [[e' E]|E];
      rewrite E in H; inversion H; reflexivity.
Qed.

Lemma X15_witness :
  exists locations,
    repository.SearchLocationsByText
      (repository.mkRepository (repository.engine Sample.crowded)
         (map Sample.numbered [3; 1; 2]) None (fun _ => None) None) "丸の内"
    = (locations, None)
    /\ Permutation locations (map Sample.numbered [3; 1; 2]).
Proof.
  refine (proj1 (X15_search_drops_no_match
                   (repository.mkRepository (repository.engine Sample.crowded)
                      (map Sample.numbered [3; 1; 2]) None (fun _ => None) None)
                   "丸の内") _ _ _ _); try reflexivity.
  simpl. lia.
Defined.

(** X16.  The range check of [ReverseGeocode] lets NaN through: every
    comparison with NaN is false, so a NaN latitude (with a longitude that
    is NaN or within range) or a NaN longitude (with a latitude within
    range) is not refused and the repository is called with it.  Through
    the handler, the request [lat=NaN] with a well-formed longitude within
    range reaches the repository in this way. *)
Theorem X16_nan_passes_the_range_check :
  (forall lat lon answer,
     (lat = Float64.NaN \/ lat_in_range lat = true) ->
     (lon = Float64.NaN \/ lon_in_range lon = true) ->
     calls answer (service.ReverseGeocode lat lon)
     = [existT _ _ (service.FindNearestLocation lat lon)])
  /\ (forall c lon answer,
        handler.Query c "lat" = "NaN" ->
        handler.Query c "lon" <> "" ->
        strconv.ParseFloat (handler.Query c "lon") = Some lon ->
        lon_in_range lon = true ->
        calls answer (interp api.reverseGeocodeService (handler.ReverseGeocode c))
        = [existT _ _ (service.FindNearestLocation Float64.NaN lon)]).
Proof.
  assert (Hsvc : forall lat lon answer,
             (lat = Float64.NaN \/ lat_in_range lat = true) ->
             (lon = Float64.NaN \/ lon_in_range lon = true) ->
             calls answer (service.ReverseGeocode lat lon)
             = [existT _ _ (service.FindNearestLocation lat lon)]).
  { intros lat lon answer Hlat Hlon. unfold service.ReverseGeocode.
    assert (E1 : Float64.ltb lat (Float64.of_Z (-90))
                 || Float64.gtb lat (Float64.of_Z 90) = false).
    { destruct Hlat as [->|H].
      - destruct (nan_not_lt (Float64.of_Z (-90))) as [-> _].
        destruct (nan_not_lt (Float64.of_Z 90)) as [_ ->]. reflexivity.
      - unfold lat_in_range in H. apply andb_true_iff in H as [A B].
        now rewrite (leb_not_ltb _ _ A), (leb_not_gtb _ _ B). }
    assert (E2 : Float64.ltb lon (Float64.of_Z (-180))
                 || Float64.gtb lon (Float64.of_Z 180) = false).
    { destruct Hlon as [->|H].
      - destruct (nan_not_lt (Float64.of_Z (-180))) as [-> _].
        destruct (nan_not_lt (Float64.of_Z 180)) as [_ ->]. reflexivity.
      - unfold lon_in_range in H. apply andb_true_iff in H as [A B].
        now rewrite (leb_not_ltb _ _ A), (leb_not_gtb _ _ B). }
    rewrite E1, E2. simpl.
    destruct (answer _ (service.FindNearestLocation lat lon)) as [l [e|]];
      reflexivity. }
  split; [exact Hsvc|].
  intros c lon answer Hlat Hlon Plon Rlon.
  specialize (Hsvc Float64.NaN lon answer (or_introl eq_refl) (or_intror Rlon)).
  unfold handler.ReverseGeocode. rewrite Hlat.
  apply String.eqb_neq in Hlon. rewrite Hlon, Plon.
  change (strconv.ParseFloat "NaN") with (Some Float64.NaN).
  simpl. rewrite calls_bind, Hsvc.
  destruct (run answer (service.ReverseGeocode Float64.NaN lon))
    as [[loc|] [e|]]; reflexivity.
Qed.

Lemma X16_witness :
  calls (api.reverseGeoCodeRepo Sample.crowded)
    (interp api.reverseGeocodeService
       (handler.ReverseGeocode [("lat", "NaN"); ("lon", "139.767125")]))
  = [existT _ _
       (service.FindNearestLocation Float64.NaN
          (Float64.of_decimal false 139767125 (-6)))]
  /\ calls (api.reverseGeoCodeRepo Sample.crowded)
       (service.ReverseGeocode (Float64.of_Z 35) Float64.NaN)
     = [existT _ _ (service.FindNearestLocation (Float64.of_Z 35) Float64.NaN)].
Proof.
  destruct X16_nan_passes_the_range_check as [Hsvc Hroute].
  split.
  - apply Hroute; try reflexivity. discriminate.
  - apply Hsvc; [right; reflexivity|left; reflexivity].
Defined.

(** ** The first version of the verification *)

(** X17.  The verification of the first version of the importer succeeds
    exactly when both queries are answered, the table holds exactly the
    expected number of rows, and it is not empty.  So, right after a bulk
    insert of the records of a file, it can only succeed on a table that
    was empty before: on a store that already held rows it reports a count
    mismatch although the rows of the file were inserted, where the later
    version accepts any count that is large enough. *)
Theorem X17_first_version_wants_the_exact_count :
  (forall expectedCount w,
     fst (v1.verifyImport expectedCount w) = None
     <-> hd None (faults w) = None
         /\ GoInt.len (locations w) = expectedCount
         /\ hd None (tl (faults w)) = None
         /\ locations w <> [])
  /\ (forall records w,
        hd None (faults w) = None ->
        let inserted := snd (insertRecords records w) in
        locations inserted = locations w ++ records
        /\ (fst (v1.verifyImport (GoInt.len records) inserted) = None
            <-> locations w = [] /\ records <> []
                /\ hd None (tl (faults w)) = None
                /\ hd None (tl (tl (faults w))) = None)
        /\ (locations w <> [] -> hd None (tl (faults w)) = None ->
            fst (v1.verifyImport (GoInt.len records) inserted)
            = Some (v1.record_count_mismatch (GoInt.len records)
                      (GoInt.len (locations w ++ records)))
            /\ (hd None (tl (tl (faults w))) = None ->
                fst (verifyImport (GoInt.len records) inserted) = None))).
Proof.
  assert (Hiff : forall expectedCount w,
             fst (v1.verifyImport expectedCount w) = None
             <-> hd None (faults w) = None
                 /\ GoInt.len (locations w) = expectedCount
                 /\ hd None (tl (faults w)) = None
                 /\ locations w <> []).
  { intros n w. unfold v1.verifyImport, roundtrip. simpl.
    destruct (hd None (faults w)) as [msg|]; simpl.
    { split; [discriminate|intros (H & _); discriminate]. }
    destruct (GoInt.len (locations w) =? n) eqn:E; simpl.
    2:{ apply Z.eqb_neq in E.
        split; [discriminate|intros (_ & H & _); contradiction]. }
    apply Z.eqb_eq in E.
    destruct (hd None (tl (faults w))) as [msg|]; simpl.
    { split; [discriminate|intros (_ & _ & H & _); discriminate]. }
    destruct (locations w) as [|r rest]; simpl.
    - split; [discriminate|intros (_ & _ & _ & H); congruence].
    - split; [intros _; repeat split; [exact E|discriminate]|reflexivity]. }
  split; [exact Hiff|].
  intros records w H inserted.
  assert (Ei : inserted
               = mkWorld (locations w ++ records) (processed_files w)
                   (tl (faults w)) (trace w ++ [EvCopyFrom records])).
  { unfold inserted, insertRecords, roundtrip, set_locations. simpl.
    now rewrite H. }
  assert (Hlen : GoInt.len (locations w ++ records) = GoInt.len records
                 <-> locations w = []).
  { rewrite len_app. unfold GoInt.len. split.
    - intros X. destruct (locations w) as [|a l]; [reflexivity|].
      change (List.length (a :: l)) with (S (List.length l)) in X. lia.
    - intros ->. reflexivity. }
  rewrite Ei. simpl. split; [reflexivity|]. split.
  - rewrite Hiff. simpl. rewrite Hlen. split.
    + intros (A & B & C & D). rewrite B in D. simpl in D. tauto.
    + intros (A & B & C & D). rewrite A. simpl. tauto.
  - intros Hne I. split.
    + unfold v1.verifyImport, roundtrip. simpl. rewrite I. simpl.
      destruct (GoInt.len (locations w ++ records) =? GoInt.len records) eqn:E;
        [|reflexivity].
      apply Z.eqb_eq in E. apply Hlen in E. contradiction.
    + intros M. apply verifyImport_ok_iff. simpl. repeat split; auto.
      * rewrite len_app. pose proof (len_nonneg (locations w)). lia.
      * intros X. apply app_eq_nil in X. tauto.
Qed.

Lemma X17_witness :
  let w := mkWorld [Sample.akasaka_record] [] [] [] in
  let inserted := snd (insertRecords [Sample.marunouchi_record] w) in
  fst (v1.verifyImport 1 inserted) = Some (v1.record_count_mismatch 1 2)
  /\ fst (verifyImport 1 inserted) = None
  /\ fst (v1.verifyImport 1
            (snd (insertRecords [Sample.marunouchi_record] Sample.empty)))
     = None.
Proof.
  intros w inserted.
  destruct X17_first_version_wants_the_exact_count as [_ H].
  destruct (H [Sample.marunouchi_record] w eq_refl) as (_ & _ & Hmis).
  destruct Hmis as [A B]; [discriminate|reflexivity|].
  split; [exact A|]. split; [apply B; reflexivity|].
  destruct (H [Sample.marunouchi_record] Sample.empty eq_refl) as (_ & Hok & _).
  apply Hok. repeat split. discriminate.
Defined.
